(** * A shallow embedding of the Backblaze B2 signing proxy (src/index.js)

    The worker rewrites an unauthenticated GET/HEAD request into a signed
    request for the S3-compatible endpoint, forwards it, retries range
    requests whose response lacks [content-range], and shapes the response
    (HEAD semantics, cache headers).

    Layout: platform model (strings, [Headers], [URL], [Response]), the
    functions of [index.js] in source order, the effect monad in which the
    [fetch] handler runs, and then the theorems. *)

From Stdlib Require Import ZArith Ascii.
From stdpp Require Import base option list strings gmap fin_maps pretty.

Open Scope Z_scope.
Open Scope string_scope.

(** ** Strings as the platform handles them *)

Module Js.

(** ASCII lower-casing, as the platform applies to header names
    (byte-lowercase: only [A]..[Z] change). *)
Definition ascii_lower (c : ascii) : ascii :=
  let n := N_of_ascii c in
  if ((65 <=? n) && (n <=? 90))%N then ascii_of_N (n + 32) else c.

Fixpoint toLowerCase (s : string) : string :=
  match s with
  | EmptyString => EmptyString
  | String c s' => String (ascii_lower c) (toLowerCase s')
  end.

(** [s.startsWith(p)] *)
Fixpoint startsWith (s p : string) : bool :=
  match p, s with
  | EmptyString, _ => true
  | String b p', String a s' => if Ascii.eqb a b then startsWith s' p' else false
  | String _ _, EmptyString => false
  end.

(** [array.includes(x)] on an array of strings. *)
Definition includes (l : list string) (x : string) : bool :=
  bool_decide (x ∈ l).

(** [s.split(c)] for a one-character separator: the pieces between the
    separators, so the empty string yields one empty piece. *)
Fixpoint split (c : ascii) (s : string) : list string :=
  match s with
  | EmptyString => [EmptyString]
  | String a s' =>
      if Ascii.eqb a c then EmptyString :: split c s'
      else match split c s' with
           | piece :: rest => String a piece :: rest
           | [] => [String a EmptyString]
           end
  end.

(** [s.replace(/^\//, '')]: one leading slash is removed. *)
Definition strip_leading_slash (s : string) : string :=
  match s with
  | String "/"%char s' => s'
  | _ => s
  end.

(** [s.replace(/\/$/, '')]: one trailing slash is removed. *)
Fixpoint strip_trailing_slash (s : string) : string :=
  match s with
  | EmptyString => EmptyString
  | String "/"%char EmptyString => EmptyString
  | String a s' => String a (strip_trailing_slash s')
  end.

(** The suffix of [s] after the prefix [p], when [s] starts with [p]. *)
Fixpoint after_prefix (p s : string) : option string :=
  match p, s with
  | EmptyString, _ => Some s
  | String b p', String a s' => if Ascii.eqb a b then after_prefix p' s' else None
  | String _ _, EmptyString => None
  end.

(** The suffix of [s] after its first slash, together with the number of
    characters in front of that slash. *)
Fixpoint after_first_slash (s : string) : option (nat * string) :=
  match s with
  | EmptyString => None
  | String "/"%char s' => Some (0%nat, s')
  | String _ s' =>
      match after_first_slash s' with
      | Some (n, rest) => Some (S n, rest)
      | None => None
      end
  end.

(** [s.replace(/^file\//, "")] *)
Definition strip_file_prefix (s : string) : string :=
  match after_prefix "file/" s with
  | Some rest => rest
  | None => s
  end.

(** [s.replace(/^file\/[^/]+\//, "")]: the prefix [file/], one non-empty
    segment and the slash that ends it. *)
Definition strip_file_bucket_prefix (s : string) : string :=
  match after_prefix "file/" s with
  | Some rest =>
      match after_first_slash rest with
      | Some (S _, rest') => rest'
      | _ => s
      end
  | None => s
  end.

(** The values of the environment bindings that the worker prints with
    [String(v)]: an absent binding, a boolean, an integer or a string. *)
Inductive value :=
| Undefined
| Bool (b : bool)
| Num (n : Z)
| Str (s : string).

Definition String_ (v : value) : string :=
  match v with
  | Undefined => "undefined"
  | Bool true => "true"
  | Bool false => "false"
  | Num n => pretty n
  | Str s => s
  end.

End Js.

(** ** The [Headers] class

    A [Headers] object is modelled by what its methods expose: the finite
    map from lower-cased header name to the combined value of that name.
    The order in which [entries()] lists the names plays no role in the
    worker and is left to the map; [set-cookie], the one name whose values
    the platform keeps apart, does not occur in what the worker handles. *)

Abbreviation Headers := (gmap string string).

(** Every name stored in a [Headers] object is lower case. *)
Definition Headers_wf (h : Headers) : Prop :=
  map_Forall (λ k _, Js.toLowerCase k = k) h.

(** [headers.append(name, value)]: a repeated name has its values joined. *)
Definition Headers_append (h : Headers) (name value : string) : Headers :=
  let k := Js.toLowerCase name in
  match h !! k with
  | Some old => <[k := old +:+ ", " +:+ value]> h
  | None => <[k := value]> h
  end.

(** [new Headers(init)] for a sequence of pairs. *)
Definition new_Headers (init : list (string * string)) : Headers :=
  foldl (λ h pair, Headers_append h pair.1 pair.2) ∅ init.

(** [headers.entries()], as an array. *)
Definition Headers_entries (h : Headers) : list (string * string) :=
  map_to_list h.

(** [new Headers(other)] for another [Headers] object: its entries are
    iterated and appended. *)
Definition Headers_copy (h : Headers) : Headers :=
  new_Headers (Headers_entries h).

Definition Headers_has (h : Headers) (name : string) : bool :=
  bool_decide (is_Some (h !! Js.toLowerCase name)).

Definition Headers_get (h : Headers) (name : string) : option string :=
  h !! Js.toLowerCase name.

(** [headers.set(name, value)] *)
Definition Headers_set (h : Headers) (name value : string) : Headers :=
  <[Js.toLowerCase name := value]> h.

(** ** [URL], [Request], [Response] and the worker environment *)

(** A parsed URL; [protocol] carries its colon, [port] is empty for the
    default port of the protocol, [pathname] starts with a slash and
    [search] is empty or starts with a question mark. *)
Record URL := mkURL {
  protocol : string;
  hostname : string;
  port : string;
  pathname : string;
  search : string
}.

Definition default_port (proto : string) : string :=
  if String.eqb proto "https:" then "443"
  else if String.eqb proto "http:" then "80"
  else "".

(** [url.protocol = p], between the two web protocols. *)
Definition URL_set_protocol (u : URL) (p : string) : URL :=
  mkURL p (hostname u)
        (if String.eqb (port u) (default_port p) then "" else port u)
        (pathname u) (search u).

(** [url.port = p]: the default port of the protocol is stored as empty. *)
Definition URL_set_port (u : URL) (p : string) : URL :=
  mkURL (protocol u) (hostname u)
        (if String.eqb p (default_port (protocol u)) then "" else p)
        (pathname u) (search u).

(** [url.hostname = h], for a host name that the platform accepts and
    keeps as written (valid, lower case). The platform lower-cases other
    valid names and leaves the URL unchanged for an invalid one; what it
    makes of such names is not modelled. *)
Definition URL_set_hostname (u : URL) (h : string) : URL :=
  mkURL (protocol u) h (port u) (pathname u) (search u).

(** [url.pathname = p]: the path is re-parsed, which puts the leading
    slash back (dot segments and characters that need escaping aside). *)
Definition URL_set_pathname (u : URL) (p : string) : URL :=
  mkURL (protocol u) (hostname u) (port u)
        (if Js.startsWith p "/" then p else "/" +:+ p) (search u).

Definition URL_toString (u : URL) : string :=
  protocol u +:+ "//" +:+ hostname u
  +:+ (if String.eqb (port u) "" then "" else ":" +:+ port u)
  +:+ pathname u +:+ search u.

(** The incoming request: [request.method], [new URL(request.url)] and
    [request.headers]. *)
Record Request := mkRequest {
  req_method : string;
  req_url : URL;
  req_headers : Headers
}.

(** A response; [body] is [None] for JavaScript's [null]. The [Response]
    constructor refuses a status outside 200..599 and a body on a
    null-body status; the model is for responses that meet neither case,
    so construction is total here. *)
Record Response := mkResponse {
  body : option string;
  status : Z;
  statusText : string;
  headers : Headers
}.

(** [new Response(body, {status, statusText, headers})]: the response gets
    a [Headers] object of its own, filled from [headers]. *)
Definition new_Response (body : option string) (status : Z)
    (statusText : string) (headers : Headers) : Response :=
  mkResponse body status statusText (Headers_copy headers).

(** [response.ok] *)
Definition ok (r : Response) : bool :=
  ((200 <=? status r) && (status r <=? 299))%Z.

(** What [client.sign] resolves to: a request ready to be fetched. *)
Record SignedRequest := mkSigned {
  signed_url : string;
  signed_method : string;
  signed_headers : Headers
}.

(** The bindings of [env] that the worker reads. [ALLOWED_HEADERS] is
    [None] when the binding is absent ([!('ALLOWED_HEADERS' in env)]). *)
Record Env := mkEnv {
  BUCKET_NAME : string;
  B2_ENDPOINT : string;
  B2_APPLICATION_KEY_ID : string;
  B2_APPLICATION_KEY : string;
  ALLOW_LIST_BUCKET : Js.value;
  RCLONE_DOWNLOAD : Js.value;
  ALLOWED_HEADERS : option (list string)
}.

(** ** index.js: constants and helper functions *)

Definition UNSIGNABLE_HEADERS : list string := [
  "x-forwarded-proto";
  "x-real-ip";
  "accept-encoding";
  "if-match";
  "if-modified-since";
  "if-none-match";
  "if-range";
  "if-unmodified-since"
].

Definition HTTPS_PROTOCOL : string := "https:".
Definition HTTPS_PORT : string := "443".

Definition RANGE_RETRY_ATTEMPTS : nat := 3.

Definition BROWSER_CACHE_TTL_SECONDS : Z := 2592000.

(** The predicate of the [filter] call in [filterHeaders], on one entry. *)
Definition kept (env : Env) (pair : string * string) : bool :=
  negb (Js.includes UNSIGNABLE_HEADERS pair.1
        || Js.startsWith pair.1 "cf-"
        || match ALLOWED_HEADERS env with
           | Some allowed => negb (Js.includes allowed pair.1)
           | None => false
           end).

Definition filterHeaders (headers : Headers) (env : Env) : Headers :=
  new_Headers (filter (λ pair, kept env pair = true) (Headers_entries headers)).

Definition createHeadResponse (response : Response) : Response :=
  let newHeaders := Headers_copy (headers response) in
  new_Response None (status response) (statusText response) newHeaders.

Definition addCacheHeaders (response : Response) (cacheTtlSeconds : Z) : Response :=
  if negb (ok response) then response
  else
    let newHeaders := Headers_copy (headers response) in
    let newHeaders :=
      Headers_set newHeaders "Cache-Control"
                  ("public, max-age=" +:+ pretty cacheTtlSeconds) in
    new_Response (body response) (status response) (statusText response)
                 newHeaders.

Definition isListBucketRequest (env : Env) (path : string) : bool :=
  let pathSegments := Js.split "/" path in
  (String.eqb (BUCKET_NAME env) "$path" && (length pathSegments <? 2)%nat)
  || (negb (String.eqb (BUCKET_NAME env) "$path") && (String.length path =? 0)%nat).

(** ** Effects of the handler

    The handler awaits the signer and the network and writes to the
    console. These effects are threaded through a state that records, in
    order, every call that leaves the worker. *)

Inductive Message :=
| RetrySucceeded (url : string)
| NoContentRange (url : string) (attempts : Z)
| RetriesExhausted (url : string) (times : nat).

(** The text of each console message. *)
Definition Message_text (m : Message) : string :=
  match m with
  | RetrySucceeded url =>
      "Retry for " +:+ url +:+ " succeeded - response has content-range header"
  | NoContentRange url attempts =>
      "Range header in request for " +:+ url
      +:+ " but no content-range header in response. Will retry "
      +:+ pretty attempts +:+ " more times"
  | RetriesExhausted url times =>
      "Tried range request for " +:+ url +:+ " " +:+ pretty times
      +:+ " times, but no content-range in response."
  end.

Inductive Event :=
| EvSign (accessKeyId secretAccessKey service : string)
         (url method : string) (headers : Headers)
| EvFetch (url method : string) (headers : Headers)
| EvBodyCancel (response : Response)
| EvConsoleLog (m : Message)
| EvConsoleError (m : Message).

Record World := mkWorld {
  fetches : nat;        (* calls of the platform's [fetch] so far *)
  trace : list Event    (* oldest first *)
}.

Definition World_emit (w : World) (e : Event) : World :=
  mkWorld (fetches w) (trace w ++ [e]).

(** A settled promise. *)
Inductive Settled (A : Type) :=
| Fulfilled (a : A)
| Rejected.
Arguments Fulfilled {A} a.
Arguments Rejected {A}.

Definition Async (A : Type) : Type := World → Settled A * World.

#[global] Instance Async_ret : MRet Async := λ A a w, (Fulfilled a, w).

#[global] Instance Async_bind : MBind Async := λ A B k m w,
  match m w with
  | (Fulfilled a, w') => k a w'
  | (Rejected, w') => (Rejected, w')
  end.

Section Handler.

(** The signer of aws4fetch, for the credentials and service it was
    constructed with. *)
Variable aws_sign :
  string → string → string → string → string → Headers → SignedRequest.

(** What the network answers to the n-th call of [fetch] (counted from
    0); [None] is a transport failure. *)
Variable upstream : nat → option Response.

Definition client_sign (env : Env) (url method : string) (headers : Headers)
  : Async SignedRequest := λ w,
  let accessKeyId := B2_APPLICATION_KEY_ID env in
  let secretAccessKey := B2_APPLICATION_KEY env in
  (Fulfilled (aws_sign accessKeyId secretAccessKey "s3" url method headers),
   World_emit w (EvSign accessKeyId secretAccessKey "s3" url method headers)).

Definition platform_fetch (url method : string) (headers : Headers)
  : Async Response := λ w,
  let w' := mkWorld (S (fetches w)) (trace w ++ [EvFetch url method headers]) in
  match upstream (fetches w) with
  | Some response => (Fulfilled response, w')
  | None => (Rejected, w')
  end.

Definition body_cancel (response : Response) : Async unit := λ w,
  (Fulfilled (), World_emit w (EvBodyCancel response)).

Definition console_log (m : Message) : Async unit := λ w,
  (Fulfilled (), World_emit w (EvConsoleLog m)).

Definition console_error (m : Message) : Async unit := λ w,
  (Fulfilled (), World_emit w (EvConsoleError m)).

(** The variables of the retry loop when it is left. *)
Record LoopVars := mkLoopVars {
  attempts : Z;
  response : Response;
  finalResponse : option Response
}.

(** The [do ... while (attempts > 0)] loop of the range branch (lines
    188-223), entered with [attempts] tries left. *)
Fixpoint range_loop (signedRequest : SignedRequest) (attempts : nat)
  : Async LoopVars :=
  response ← platform_fetch (signed_url signedRequest)
                            (signed_method signedRequest)
                            (signed_headers signedRequest);
  if Headers_has (headers response) "content-range" then
    _ ← (if (attempts <? RANGE_RETRY_ATTEMPTS)%nat
         then console_log (RetrySucceeded (signed_url signedRequest))
         else mret ());
    mret (mkLoopVars (Z.of_nat attempts) response (Some response))
  else if ok response then
    let attempts' := Z.of_nat attempts - 1 in
    _ ← console_error (NoContentRange (signed_url signedRequest) attempts');
    match attempts with
    | S (S _ as remaining) =>
        (* attempts > 0: release the body and go round again *)
        _ ← (if body response is Some _ then body_cancel response else mret ());
        range_loop signedRequest remaining
    | _ =>
        (* last attempt: use this response; the loop condition fails *)
        mret (mkLoopVars attempts' response (Some response))
    end
  else
    mret (mkLoopVars (Z.of_nat attempts) response (Some response)).

(** The tail shared by both branches of the handler (lines 233-241 and
    249-257): HEAD requests get a body-less response, and cache headers
    are added. *)
Definition respond (requestMethod : string) (finalResponse : Response)
  : Response :=
  if String.eqb requestMethod "HEAD" then
    let headResponse := createHeadResponse finalResponse in
    addCacheHeaders headResponse BROWSER_CACHE_TTL_SECONDS
  else
    addCacheHeaders finalResponse BROWSER_CACHE_TTL_SECONDS.

(** Lines 183-258 of the handler: the signed request is fetched, with
    the retry loop when it carries a [range] header, and the final
    response is shaped for [requestMethod]. *)
Definition dispatch (signedRequest : SignedRequest) (requestMethod : string)
  : Async Response :=
  if Headers_has (signed_headers signedRequest) "range" then
    vars ← range_loop signedRequest RANGE_RETRY_ATTEMPTS;
    let finalResponse := default (response vars) (finalResponse vars) in
    _ ← (if (attempts vars <=? 0)%Z
            && negb (Headers_has (headers finalResponse) "content-range")
         then console_error (RetriesExhausted (signed_url signedRequest)
                                              RANGE_RETRY_ATTEMPTS)
         else mret ());
    mret (respond requestMethod finalResponse)
  else
    response ← platform_fetch (signed_url signedRequest)
                              (signed_method signedRequest)
                              (signed_headers signedRequest);
    mret (respond requestMethod response).

(** The path with one leading and one trailing slash removed (lines
    112-114). *)
Definition normalized_path (url : URL) : string :=
  let path := Js.strip_leading_slash (pathname url) in
  Js.strip_trailing_slash path.

(** The host name assigned to the upstream URL for the configured bucket
    mode (the [switch] of lines 129-142). *)
Definition upstream_hostname (env : Env) (url : URL) : string :=
  if String.eqb (BUCKET_NAME env) "$path" then
    B2_ENDPOINT env
  else if String.eqb (BUCKET_NAME env) "$host" then
    default "" (head (Js.split "." (hostname url))) +:+ "." +:+ B2_ENDPOINT env
  else
    BUCKET_NAME env +:+ "." +:+ B2_ENDPOINT env.

(** The [fetch] handler of the worker. *)
Definition fetch (request : Request) (env : Env) : Async Response :=
  if negb (Js.includes ["GET"; "HEAD"] (req_method request)) then
    mret (new_Response None 405 "Method Not Allowed" ∅)
  else
    let url := req_url request in
    let url := URL_set_protocol url HTTPS_PROTOCOL in
    let url := URL_set_port url HTTPS_PORT in
    let path := normalized_path url in
    if isListBucketRequest env path
       && negb (String.eqb (Js.String_ (ALLOW_LIST_BUCKET env)) "true") then
      mret (new_Response None 404 "Not Found" ∅)
    else
      let rcloneDownload :=
        String.eqb (Js.String_ (RCLONE_DOWNLOAD env)) "true" in
      let url := URL_set_hostname url (upstream_hostname env url) in
      let headers' := filterHeaders (req_headers request) env in
      let requestMethod := req_method request in
      let url :=
        if rcloneDownload then
          if String.eqb (BUCKET_NAME env) "$path"
          then URL_set_pathname url (Js.strip_file_prefix path)
          else URL_set_pathname url (Js.strip_file_bucket_prefix path)
        else url in
      signedRequest ← client_sign env (URL_toString url) "GET" headers';
      dispatch signedRequest requestMethod.

End Handler.

(** ** Vocabulary of the statements *)

(** The world in which a request arrives: nothing fetched, nothing logged. *)
Definition initial : World := mkWorld 0 [].

Definition is_fetch (e : Event) : bool :=
  match e with EvFetch _ _ _ => true | _ => false end.

Definition is_sign (e : Event) : bool :=
  match e with EvSign _ _ _ _ _ _ => true | _ => false end.

(** The diagnostic written when the retries of a range request run out. *)
Definition is_exhaustion (e : Event) : bool :=
  match e with EvConsoleError (RetriesExhausted _ _) => true | _ => false end.

Definition count (p : Event → bool) (t : list Event) : nat :=
  length (List.filter p t).

(** A success-class response that ignored the requested range. *)
Definition range_ignored (r : Response) : Prop :=
  ok r = true ∧ Headers_has (headers r) "content-range" = false.

(** Listing is enabled only when [ALLOW_LIST_BUCKET] prints as [true]. *)
Definition list_bucket_allowed (env : Env) : bool :=
  String.eqb (Js.String_ (ALLOW_LIST_BUCKET env)) "true".

Definition rclone_download (env : Env) : bool :=
  String.eqb (Js.String_ (RCLONE_DOWNLOAD env)) "true".

(** The request passes the method check and the list-bucket check, so the
    handler goes on to sign and fetch. *)
Definition forwarded (request : Request) (env : Env) : bool :=
  Js.includes ["GET"; "HEAD"] (req_method request)
  && negb (isListBucketRequest env (normalized_path (req_url request))
           && negb (list_bucket_allowed env)).

(** The path that download mode puts on the upstream URL. *)
Definition rewritten_path (env : Env) (path : string) : string :=
  if String.eqb (BUCKET_NAME env) "$path"
  then Js.strip_file_prefix path
  else Js.strip_file_bucket_prefix path.

(** The URL handed to the signer. *)
Definition upstream_url (request : Request) (env : Env) : URL :=
  let url := URL_set_port (URL_set_protocol (req_url request) HTTPS_PROTOCOL)
                          HTTPS_PORT in
  let path := normalized_path url in
  let url := URL_set_hostname url (upstream_hostname env url) in
  if rclone_download env
  then URL_set_pathname url (rewritten_path env path)
  else url.

Section Signed.

Variable aws_sign :
  string → string → string → string → string → Headers → SignedRequest.

(** The signed request of an incoming request. *)
Definition signed_request (request : Request) (env : Env) : SignedRequest :=
  aws_sign (B2_APPLICATION_KEY_ID env) (B2_APPLICATION_KEY env) "s3"
           (URL_toString (upstream_url request env)) "GET"
           (filterHeaders (req_headers request) env).

(** The one signing call the handler makes for it. *)
Definition sign_event (request : Request) (env : Env) : Event :=
  EvSign (B2_APPLICATION_KEY_ID env) (B2_APPLICATION_KEY env) "s3"
         (URL_toString (upstream_url request env)) "GET"
         (filterHeaders (req_headers request) env).

(** A fetch of exactly the signed request. *)
Definition fetch_event (s : SignedRequest) : Event :=
  EvFetch (signed_url s) (signed_method s) (signed_headers s).

End Signed.

(** The world after one more fetch of the signed request and [evs]. *)
Definition fetched (s : SignedRequest) (w : World) (evs : list Event) : World :=
  mkWorld (S (fetches w)) (trace w ++ fetch_event s :: evs).

(** An event that is neither a fetch, nor a signing call, nor the
    exhaustion diagnostic. *)
Definition quiet (e : Event) : Prop :=
  is_fetch e = false ∧ is_sign e = false ∧ is_exhaustion e = false.

(** What the retry loop may emit: fetches of the signed request, and
    quiet events. *)
Definition loop_event (s : SignedRequest) (e : Event) : Prop :=
  e = fetch_event s ∨ quiet e.

(** What the handler may emit once the request is signed: fetches of the
    signed request, and events that are neither fetches nor signing calls. *)
Definition dispatch_event (s : SignedRequest) (e : Event) : Prop :=
  e = fetch_event s ∨ (is_fetch e = false ∧ is_sign e = false).

(** The responses the worker makes up itself. *)
Definition method_not_allowed : Response :=
  new_Response None 405 "Method Not Allowed" ∅.

Definition not_found : Response :=
  new_Response None 404 "Not Found" ∅.

(** ** Further vocabulary *)

(** [s.includes(c)] for a one-character [c]. *)
Fixpoint occurs (c : ascii) (s : string) : bool :=
  match s with
  | EmptyString => false
  | String a s' => Ascii.eqb a c || occurs c s'
  end.

(** The last character of [s], if there is one. *)
Fixpoint last_char (s : string) : option ascii :=
  match s with
  | EmptyString => None
  | String a EmptyString => Some a
  | String _ s' => last_char s'
  end.

(** What the retry loop leaves in the trace for the responses [ignored],
    each a success without [content-range] received while tries were
    left: the fetch, the console error with the number of tries that
    remain (starting at [remaining]), and the release of the body when
    there is one. *)
Fixpoint retry_events (s : SignedRequest) (remaining : nat)
    (ignored : list Response) : list Event :=
  match ignored with
  | [] => []
  | r :: rest =>
      fetch_event s
      :: EvConsoleError (NoContentRange (signed_url s) (Z.of_nat remaining))
      :: (if body r is Some _ then [EvBodyCancel r] else [])
      ++ retry_events s (pred remaining) rest
  end.

(** The upstream answers with the responses of [ignored] first, each of
    them a success without [content-range]. *)
Definition ignores (upstream : nat → option Response)
    (ignored : list Response) : Prop :=
  ∀ i r, ignored !! i = Some r → upstream i = Some r ∧ range_ignored r.

(** A string that does not start with the letter t, as every printed
    integer. *)
Definition numeric_start (s : string) : Prop :=
  match s with
  | EmptyString => True
  | String c _ => c ≠ "t"%char
  end.

(** A response that the [Response] constructor accepts as it stands: a
    status within 200..599, and no body with the statuses 204 and 205
    (the null-body statuses of the success class). *)
Definition constructible (r : Response) : Prop :=
  (200 ≤ status r ≤ 599)%Z
  ∧ (status r = 204 ∨ status r = 205 → body r = None).

(** ** Sample inputs

    A signer that adds an [authorization] header, a configuration in
    [$path] mode, a few requests and a few upstream responses. *)

Module Sample.

Definition sign (accessKeyId secretAccessKey service url method : string)
    (headers : Headers) : SignedRequest :=
  mkSigned url method
    (Headers_set headers "Authorization"
       ("AWS4-HMAC-SHA256 Credential=" +:+ accessKeyId +:+ "/" +:+ service)).

Definition env : Env :=
  {| BUCKET_NAME := "$path";
     B2_ENDPOINT := "s3.us-west-004.backblazeb2.com";
     B2_APPLICATION_KEY_ID := "004a1b2c3d";
     B2_APPLICATION_KEY := "K004secret";
     ALLOW_LIST_BUCKET := Js.Str "false";
     RCLONE_DOWNLOAD := Js.Undefined;
     ALLOWED_HEADERS := None |}.

(** The same configuration in download mode. *)
Definition download_env : Env :=
  {| BUCKET_NAME := "$path";
     B2_ENDPOINT := "s3.us-west-004.backblazeb2.com";
     B2_APPLICATION_KEY_ID := "004a1b2c3d";
     B2_APPLICATION_KEY := "K004secret";
     ALLOW_LIST_BUCKET := Js.Str "false";
     RCLONE_DOWNLOAD := Js.Str "true";
     ALLOWED_HEADERS := None |}.

(** A configuration with an allow-list. *)
Definition strict_env : Env :=
  {| BUCKET_NAME := "media";
     B2_ENDPOINT := "s3.us-west-004.backblazeb2.com";
     B2_APPLICATION_KEY_ID := "004a1b2c3d";
     B2_APPLICATION_KEY := "K004secret";
     ALLOW_LIST_BUCKET := Js.Bool false;
     RCLONE_DOWNLOAD := Js.Bool false;
     ALLOWED_HEADERS := Some ["content-type"; "range"; "user-agent"] |}.

Definition url (path : string) : URL :=
  mkURL "http:" "files.example.workers.dev" "8787" path "".

Definition wire_headers : list (string * string) :=
  [("User-Agent", "curl/8.5.0");
   ("Range", "bytes=0-3");
   ("CF-Ray", "8a1f");
   ("Accept-Encoding", "gzip, br");
   ("X-Real-IP", "203.0.113.7")].

Definition get_range : Request :=
  mkRequest "GET" (url "/bucket/video.mp4") (new_Headers wire_headers).

Definition head_range : Request :=
  mkRequest "HEAD" (url "/bucket/video.mp4") (new_Headers wire_headers).

Definition head_plain : Request :=
  mkRequest "HEAD" (url "/bucket/video.mp4")
            (new_Headers [("User-Agent", "curl/8.5.0")]).

Definition post : Request :=
  mkRequest "POST" (url "/bucket/video.mp4") ∅.

(** [GET /bucket/]: only the bucket, no key. *)
Definition get_bucket : Request :=
  mkRequest "GET" (url "/bucket/") ∅.

(** [GET /file]: the whole normalized path is [file]. *)
Definition get_file : Request :=
  mkRequest "GET" (url "/file") ∅.

(** [GET /file//]: the normalized path is [file/]. *)
Definition get_file_slash : Request :=
  mkRequest "GET" (url "/file//") ∅.

(** The whole object, the range ignored. *)
Definition whole : Response :=
  mkResponse (Some "0123456789") 200 "OK"
             (new_Headers [("Content-Type", "video/mp4");
                           ("Cache-Control", "no-store")]).

Definition partial : Response :=
  mkResponse (Some "0123") 206 "Partial Content"
             (new_Headers [("Content-Type", "video/mp4");
                           ("Content-Range", "bytes 0-3/10")]).

Definition denied : Response :=
  mkResponse (Some "<Error><Code>AccessDenied</Code></Error>") 403 "Forbidden"
             (new_Headers [("Content-Type", "application/xml")]).

(** An upstream that answers with the responses of [l], in order, and
    fails after the last. *)
Definition replies (l : list Response) : nat → option Response :=
  λ n, l !! n.

(** A configuration in [$host] mode, and one with listing enabled by a
    boolean. *)
Definition host_env : Env :=
  {| BUCKET_NAME := "$host";
     B2_ENDPOINT := "s3.us-west-004.backblazeb2.com";
     B2_APPLICATION_KEY_ID := "004a1b2c3d";
     B2_APPLICATION_KEY := "K004secret";
     ALLOW_LIST_BUCKET := Js.Undefined;
     RCLONE_DOWNLOAD := Js.Undefined;
     ALLOWED_HEADERS := None |}.

Definition listing_env : Env :=
  {| BUCKET_NAME := "$path";
     B2_ENDPOINT := "s3.us-west-004.backblazeb2.com";
     B2_APPLICATION_KEY_ID := "004a1b2c3d";
     B2_APPLICATION_KEY := "K004secret";
     ALLOW_LIST_BUCKET := Js.Bool true;
     RCLONE_DOWNLOAD := Js.Undefined;
     ALLOWED_HEADERS := None |}.

(** The configuration with the allow-list, in download mode. *)
Definition strict_download_env : Env :=
  {| BUCKET_NAME := "media";
     B2_ENDPOINT := "s3.us-west-004.backblazeb2.com";
     B2_APPLICATION_KEY_ID := "004a1b2c3d";
     B2_APPLICATION_KEY := "K004secret";
     ALLOW_LIST_BUCKET := Js.Bool false;
     RCLONE_DOWNLOAD := Js.Str "true";
     ALLOWED_HEADERS := Some ["content-type"; "range"; "user-agent"] |}.

(** [GET /bucket/video.mp4?versionId=7] on plain http, port 8787. *)
Definition get_query : Request :=
  mkRequest "GET"
            (mkURL "http:" "media.example.workers.dev" "8787"
                   "/bucket/video.mp4" "?versionId=7")
            (new_Headers [("User-Agent", "curl/8.5.0")]).

(** [GET /file/bucket/video.mp4/], as rclone asks for a download. *)
Definition get_download : Request :=
  mkRequest "GET" (url "/file/bucket/video.mp4/")
            (new_Headers [("User-Agent", "rclone/v1.66")]).

(** A success without body. *)
Definition empty_ok : Response :=
  mkResponse None 200 "OK" (new_Headers [("Content-Length", "0")]).

(** An allow-list that leaves [range] out. *)
Definition no_range_env : Env :=
  {| BUCKET_NAME := "$path";
     B2_ENDPOINT := "s3.us-west-004.backblazeb2.com";
     B2_APPLICATION_KEY_ID := "004a1b2c3d";
     B2_APPLICATION_KEY := "K004secret";
     ALLOW_LIST_BUCKET := Js.Str "false";
     RCLONE_DOWNLOAD := Js.Undefined;
     ALLOWED_HEADERS := Some ["content-type"; "user-agent"] |}.

(** An allow-list written with capitals. *)
Definition capital_env : Env :=
  {| BUCKET_NAME := "$path";
     B2_ENDPOINT := "s3.us-west-004.backblazeb2.com";
     B2_APPLICATION_KEY_ID := "004a1b2c3d";
     B2_APPLICATION_KEY := "K004secret";
     ALLOW_LIST_BUCKET := Js.Str "false";
     RCLONE_DOWNLOAD := Js.Undefined;
     ALLOWED_HEADERS := Some ["Range"; "User-Agent"] |}.


End Sample.

(** ** Platform facts: strings *)

Lemma ascii_lower_idemp c : Js.ascii_lower (Js.ascii_lower c) = Js.ascii_lower c.
Proof. destruct c as [[] [] [] [] [] [] [] []]; reflexivity. Qed.

Lemma toLowerCase_idemp s : Js.toLowerCase (Js.toLowerCase s) = Js.toLowerCase s.
Proof.
  induction s as [|c s IH]; simpl; [done|].
  by rewrite ascii_lower_idemp, IH.
Qed.

Lemma includes_true l x : Js.includes l x = true ↔ x ∈ l.
Proof. unfold Js.includes. apply bool_decide_eq_true. Qed.

Lemma includes_false l x : Js.includes l x = false ↔ x ∉ l.
Proof. unfold Js.includes. apply bool_decide_eq_false. Qed.

Lemma split_nonempty c s : Js.split c s ≠ [].
Proof.
  destruct s as [|a s]; simpl; [done|].
  destruct (Ascii.eqb a c); [done|]. by destruct (Js.split c s).
Qed.

Lemma after_prefix_Some p s rest : Js.after_prefix p s = Some rest → s = p +:+ rest.
Proof.
  revert s. induction p as [|b p IH]; intros s; simpl.
  - by intros [= ->].
  - destruct s as [|a s]; [done|].
    destruct (Ascii.eqb a b) eqn:E; [|done].
    apply Ascii.eqb_eq in E as ->. intros H. by rewrite (IH _ H).
Qed.

(** ** Platform facts: [Headers] *)

Lemma Headers_append_wf h name value :
  Headers_wf h → Headers_wf (Headers_append h name value).
Proof.
  intros Hwf. unfold Headers_append.
  destruct (h !! Js.toLowerCase name);
    (apply map_Forall_insert_2; [apply toLowerCase_idemp | done]).
Qed.

Lemma Headers_set_wf h name value :
  Headers_wf h → Headers_wf (Headers_set h name value).
Proof.
  intros Hwf. apply map_Forall_insert_2; [apply toLowerCase_idemp | done].
Qed.

Lemma new_Headers_snoc l name value :
  new_Headers (l ++ [(name, value)])
  = Headers_append (new_Headers l) name value.
Proof. unfold new_Headers. by rewrite foldl_app. Qed.

Lemma new_Headers_wf l : Headers_wf (new_Headers l).
Proof.
  induction l as [|[n v] l IH] using rev_ind.
  - apply map_Forall_empty.
  - rewrite new_Headers_snoc. by apply Headers_append_wf.
Qed.

(** On entries with distinct lower-case names, the constructor builds the
    map with exactly these entries. *)
Lemma new_Headers_list_to_map (l : list (string * string)) :
  NoDup l.*1 →
  Forall (λ pair, Js.toLowerCase pair.1 = pair.1) l →
  new_Headers l = list_to_map l.
Proof.
  induction l as [|[n v] l IH] using rev_ind; intros Hnd Hlow; [done|].
  rewrite fmap_app in Hnd. apply NoDup_app in Hnd as (Hnd & Hfresh & _).
  apply Forall_app in Hlow as [Hlow Hn].
  rewrite Forall_singleton in Hn. simpl in Hn.
  assert (n ∉ l.*1) as Hn'.
  { intros Hin. apply (Hfresh _ Hin). simpl. apply list_elem_of_here. }
  rewrite new_Headers_snoc, IH by done.
  unfold Headers_append. rewrite Hn.
  rewrite not_elem_of_list_to_map_1 by done.
  symmetry. by apply list_to_map_snoc.
Qed.

Lemma Headers_entries_lower h :
  Headers_wf h →
  Forall (λ pair, Js.toLowerCase pair.1 = pair.1) (Headers_entries h).
Proof.
  intros Hwf. apply Forall_forall. intros [k v] Hin.
  apply elem_of_map_to_list in Hin. by apply (Hwf k v).
Qed.

Lemma Headers_copy_wf h : Headers_wf h → Headers_copy h = h.
Proof.
  intros Hwf. unfold Headers_copy.
  rewrite new_Headers_list_to_map.
  - apply list_to_map_to_list.
  - apply NoDup_fst_map_to_list.
  - by apply Headers_entries_lower.
Qed.

(** On a genuine [Headers] object, [filterHeaders] is the map filter with
    the predicate of the source. *)
Lemma filterHeaders_filter h env :
  Headers_wf h →
  filterHeaders h env = filter (λ pair, kept env pair = true) h.
Proof.
  intros Hwf. unfold filterHeaders. rewrite map_filter_alt.
  apply new_Headers_list_to_map.
  - apply (NoDup_fmap_fst _).
    + intros k v1 v2 [_ H1]%list_elem_of_filter [_ H2]%list_elem_of_filter.
      apply elem_of_map_to_list in H1, H2. congruence.
    + apply NoDup_filter, NoDup_map_to_list.
  - apply Forall_forall. intros [k v] [_ Hin]%list_elem_of_filter.
    apply elem_of_map_to_list in Hin. by apply (Hwf k v).
Qed.

(** ** The effect monad *)

Lemma bind_fulfilled {A B} (m : Async A) (k : A → Async B) w a w' :
  m w = (Fulfilled a, w') → (m ≫= k) w = k a w'.
Proof. unfold mbind, Async_bind. by intros ->. Qed.

Lemma bind_rejected {A B} (m : Async A) (k : A → Async B) w w' :
  m w = (Rejected, w') → (m ≫= k) w = (Rejected, w').
Proof. unfold mbind, Async_bind. by intros ->. Qed.

Lemma count_app p t1 t2 : count p (t1 ++ t2) = (count p t1 + count p t2)%nat.
Proof. unfold count. by rewrite List.filter_app, length_app. Qed.

(** ** The retry loop *)

Section Loop.

Variable upstream : nat → option Response.
Variable signedRequest : SignedRequest.

#[local] Abbreviation loop := (range_loop upstream signedRequest).
#[local] Abbreviation url := (signed_url signedRequest).

Lemma platform_fetch_Some w r :
  upstream (fetches w) = Some r →
  platform_fetch upstream (signed_url signedRequest)
                 (signed_method signedRequest)
                 (signed_headers signedRequest) w
  = (Fulfilled r, fetched signedRequest w []).
Proof. unfold platform_fetch. by intros ->. Qed.

Lemma platform_fetch_None w :
  upstream (fetches w) = None →
  platform_fetch upstream (signed_url signedRequest)
                 (signed_method signedRequest)
                 (signed_headers signedRequest) w
  = (Rejected, fetched signedRequest w []).
Proof. unfold platform_fetch. by intros ->. Qed.

Lemma range_loop_rejected n w :
  upstream (fetches w) = None →
  loop n w = (Rejected, fetched signedRequest w []).
Proof.
  intros Hup. destruct n; simpl;
    by rewrite (bind_rejected _ _ _ _ (platform_fetch_None w Hup)).
Qed.

(** A response with [content-range] ends the loop. *)
Lemma range_loop_content_range n w r :
  upstream (fetches w) = Some r →
  Headers_has (headers r) "content-range" = true →
  loop n w
  = (Fulfilled (mkLoopVars (Z.of_nat n) r (Some r)),
     fetched signedRequest w (if (n <? RANGE_RETRY_ATTEMPTS)%nat
                then [EvConsoleLog (RetrySucceeded url)] else [])).
Proof.
  intros Hup Hcr. destruct n as [|n]; simpl;
    rewrite (bind_fulfilled _ _ _ _ _ (platform_fetch_Some w r Hup)), Hcr.
  - unfold fetched, mbind, Async_bind, console_log, World_emit. simpl.
    by rewrite <-app_assoc.
  - destruct (S n <? RANGE_RETRY_ATTEMPTS)%nat;
      unfold fetched, mbind, Async_bind, console_log, World_emit, mret,
             Async_ret; simpl; [by rewrite <-app_assoc | done].
Qed.

(** A response outside the success class ends the loop. *)
Lemma range_loop_not_ok n w r :
  upstream (fetches w) = Some r →
  Headers_has (headers r) "content-range" = false →
  ok r = false →
  loop n w = (Fulfilled (mkLoopVars (Z.of_nat n) r (Some r)), fetched signedRequest w []).
Proof.
  intros Hup Hcr Hok. destruct n as [|n]; simpl;
    by rewrite (bind_fulfilled _ _ _ _ _ (platform_fetch_Some w r Hup)), Hcr, Hok.
Qed.

(** An ignored range with tries left: the body is released and the
    request is fetched again. *)
Lemma range_loop_retry n w r :
  upstream (fetches w) = Some r →
  range_ignored r →
  loop (S (S n)) w
  = loop (S n)
         (fetched signedRequest w (EvConsoleError (NoContentRange url (Z.of_nat (S n)))
                     :: if body r is Some _ then [EvBodyCancel r] else [])).
Proof.
  intros Hup [Hok Hcr].
  change (loop (S (S n)) w) with
    ((response ← platform_fetch upstream (signed_url signedRequest)
                   (signed_method signedRequest)
                   (signed_headers signedRequest);
      if Headers_has (headers response) "content-range" then
        _ ← (if (S (S n) <? RANGE_RETRY_ATTEMPTS)%nat
             then console_log (RetrySucceeded url) else mret ());
        mret (mkLoopVars (Z.of_nat (S (S n))) response (Some response))
      else if ok response then
        _ ← console_error (NoContentRange url (Z.of_nat (S (S n)) - 1));
        _ ← (if body response is Some _
             then body_cancel response else mret ());
        loop (S n)
      else mret (mkLoopVars (Z.of_nat (S (S n))) response (Some response))) w).
  rewrite (bind_fulfilled _ _ _ _ _ (platform_fetch_Some w r Hup)), Hcr, Hok.
  replace (Z.of_nat (S (S n)) - 1) with (Z.of_nat (S n)) by lia.
  unfold fetched, mbind, Async_bind, console_error, body_cancel, World_emit,
         mret, Async_ret.
  destruct (body r); simpl; by rewrite <-!app_assoc.
Qed.

(** An ignored range on the last try: the response is kept. *)
Lemma range_loop_last n w r :
  (n ≤ 1)%nat →
  upstream (fetches w) = Some r →
  range_ignored r →
  loop n w
  = (Fulfilled (mkLoopVars (Z.of_nat n - 1) r (Some r)),
     fetched signedRequest w [EvConsoleError (NoContentRange url (Z.of_nat n - 1))]).
Proof.
  intros Hn Hup [Hok Hcr].
  destruct n as [|[|n]]; [| |lia]; simpl;
    rewrite (bind_fulfilled _ _ _ _ _ (platform_fetch_Some w r Hup)), Hcr, Hok;
    unfold fetched, mbind, Async_bind, console_error, World_emit, mret,
           Async_ret; simpl; by rewrite <-app_assoc.
Qed.

End Loop.

#[global] Arguments range_loop : simpl never.

(** Closes [Forall (loop_event s) evs] and [Forall quiet evs] on explicit
    lists. *)
Ltac loop_events :=
  repeat first
    [ by apply Forall_nil
    | apply Forall_cons; split; [first [by left | by right | done]|] ].

Section LoopRuns.

Variable upstream : nat → option Response.
Variable signedRequest : SignedRequest.

#[local] Abbreviation loop := (range_loop upstream signedRequest).

Lemma loop_event_fetch : loop_event signedRequest (fetch_event signedRequest).
Proof. by left. Qed.

Lemma count_fetch_loop_events evs :
  Forall (loop_event signedRequest) evs → count is_sign evs = 0%nat
  ∧ count is_exhaustion evs = 0%nat.
Proof.
  induction 1 as [|e evs [->|(_ & Hs & He)] _ [IHs IHe]]; [done|..];
    unfold count in *; simpl; [done|]. by rewrite Hs, He.
Qed.

(** While the upstream keeps ignoring the range and tries are left, the
    loop goes round: [k] ignored responses cost [k] fetches. *)
Lemma range_loop_skip k : ∀ n w,
  (∀ i, (i < k)%nat →
        ∃ r, upstream (fetches w + i) = Some r ∧ range_ignored r) →
  ∃ evs,
    loop (S n + k) w = loop (S n) (mkWorld (fetches w + k) (trace w ++ evs))
    ∧ Forall (loop_event signedRequest) evs
    ∧ count is_fetch evs = k.
Proof.
  induction k as [|k IH]; intros n w Hpre.
  - exists []. destruct w as [f t]. simpl.
    by rewrite !Nat.add_0_r, app_nil_r.
  - destruct (Hpre 0%nat) as (r & Hup & Hign); [lia|].
    rewrite Nat.add_0_r in Hup.
    replace (S n + S k)%nat with (S (S (n + k))) by lia.
    rewrite (range_loop_retry _ _ _ _ _ Hup Hign).
    set (evs1 := EvConsoleError _ :: _).
    destruct (IH n (fetched signedRequest w evs1)) as (evs & Heq & Hev & Hcnt).
    { intros i Hi. destruct (Hpre (S i)) as (ri & Hri & Hi'); [lia|].
      exists ri. split; [|done]. simpl. by rewrite <-Nat.add_succ_r. }
    exists (fetch_event signedRequest :: evs1 ++ evs).
    split_and!.
    + etrans; [exact Heq|]. unfold fetched. simpl. do 2 f_equal.
      * lia.
      * by rewrite <-app_assoc.
    + constructor; [by left|]. apply Forall_app. split; [|done].
      subst evs1. destruct (body r); loop_events.
    + change (fetch_event signedRequest :: evs1 ++ evs)
        with (([fetch_event signedRequest] ++ evs1 ++ evs)%list).
      rewrite !count_app, Hcnt. subst evs1.
      destruct (body r); reflexivity.
Qed.

(** Whatever the upstream answers, the loop fetches the signed request
    between one and [max n 1] times, emits nothing but these fetches and
    quiet events, and ends with the last response fetched. *)
Lemma range_loop_run n : ∀ w,
  ∃ evs k,
    (loop n w).2 = mkWorld (fetches w + S k) (trace w ++ evs)
    ∧ Forall (loop_event signedRequest) evs
    ∧ count is_fetch evs = S k
    ∧ (S k ≤ Nat.max n 1)%nat
    ∧ match (loop n w).1 with
      | Fulfilled vars =>
          upstream (fetches w + k) = Some (response vars)
          ∧ finalResponse vars = Some (response vars)
      | Rejected => upstream (fetches w + k) = None
      end.
Proof.
  assert (∀ w evs, Forall quiet evs →
            fetched signedRequest w evs
            = mkWorld (fetches w + 1) (trace w ++ fetch_event signedRequest :: evs)
            ∧ Forall (loop_event signedRequest) (fetch_event signedRequest :: evs)
            ∧ count is_fetch (fetch_event signedRequest :: evs) = 1%nat)
    as Hone.
  { intros w evs Hq. split_and!.
    - unfold fetched. f_equal. lia.
    - constructor; [by left|]. eapply Forall_impl; [done|]. by right.
    - unfold count. simpl. f_equal.
      induction Hq as [|e evs (Hf & _) _ IH]; [done|]. simpl. by rewrite Hf. }
  induction n as [|n IH]; intros w.
  - destruct (upstream (fetches w)) as [r|] eqn:Hup.
    + destruct (Headers_has (headers r) "content-range") eqn:Hcr;
        [|destruct (ok r) eqn:Hok].
      * rewrite (range_loop_content_range _ _ _ _ _ Hup Hcr). simpl.
        destruct (Hone w [EvConsoleLog (RetrySucceeded (signed_url signedRequest))])
          as (-> & ? & ?); [loop_events|].
        eexists _, 0%nat. rewrite Nat.add_0_r. by split_and!.
      * rewrite (range_loop_last _ _ 0 _ _ (Nat.le_0_l _) Hup (conj Hok Hcr)).
        edestruct (Hone w) as (-> & ? & ?); [|simpl].
        { loop_events. }
        eexists _, 0%nat. rewrite Nat.add_0_r. by split_and!.
      * rewrite (range_loop_not_ok _ _ _ _ _ Hup Hcr Hok).
        destruct (Hone w []) as (-> & ? & ?); [done|]. simpl.
        eexists _, 0%nat. rewrite Nat.add_0_r. by split_and!.
    + rewrite (range_loop_rejected _ _ _ _ Hup).
      destruct (Hone w []) as (-> & ? & ?); [done|]. simpl.
      eexists _, 0%nat. rewrite Nat.add_0_r. by split_and!.
  - destruct (upstream (fetches w)) as [r|] eqn:Hup.
    + destruct (Headers_has (headers r) "content-range") eqn:Hcr;
        [|destruct (ok r) eqn:Hok].
      * rewrite (range_loop_content_range _ _ _ _ _ Hup Hcr). simpl fst. simpl snd.
        edestruct (Hone w) as (-> & ? & ?); [|].
        2:{ eexists _, 0%nat. rewrite Nat.add_0_r. split_and!; try done; lia. }
        destruct (_ <? _)%nat; loop_events.
      * destruct n as [|n].
        -- rewrite (range_loop_last _ _ 1 _ _ (le_n _) Hup (conj Hok Hcr)).
           edestruct (Hone w) as (-> & ? & ?); [|simpl].
           { loop_events. }
           eexists _, 0%nat. rewrite Nat.add_0_r. by split_and!.
        -- rewrite (range_loop_retry _ _ _ _ _ Hup (conj Hok Hcr)).
           set (evs1 := EvConsoleError _ :: _).
           destruct (IH (fetched signedRequest w evs1))
             as (evs & k & Hw & Hev & Hcnt & Hle & Hres).
           edestruct (Hone w evs1) as (_ & Hev1 & Hcnt1).
           { subst evs1. destruct (body r); loop_events. }
           exists ((fetch_event signedRequest :: evs1) ++ evs)%list, (S k).
           split_and!.
           ++ rewrite Hw. unfold fetched. simpl. f_equal; [lia|].
              by rewrite <-app_assoc.
           ++ by apply Forall_app.
           ++ rewrite count_app, Hcnt1, Hcnt. done.
           ++ simpl in Hle. simpl. lia.
           ++ replace (fetches w + S k)%nat
                with (fetches (fetched signedRequest w evs1) + k)%nat
                by (simpl; lia).
              exact Hres.
      * rewrite (range_loop_not_ok _ _ _ _ _ Hup Hcr Hok).
        destruct (Hone w []) as (-> & ? & ?); [done|]. simpl.
        eexists _, 0%nat. rewrite Nat.add_0_r. split_and!; try done; lia.
    + rewrite (range_loop_rejected _ _ _ _ Hup).
      destruct (Hone w []) as (-> & ? & ?); [done|]. simpl.
      eexists _, 0%nat. rewrite Nat.add_0_r. split_and!; try done; lia.
Qed.

End LoopRuns.

(** ** The handler *)

Section HandlerRuns.

Variable aws_sign :
  string → string → string → string → string → Headers → SignedRequest.
Variable upstream : nat → option Response.

Lemma fetch_method_rejected request env w :
  Js.includes ["GET"; "HEAD"] (req_method request) = false →
  fetch aws_sign upstream request env w = (Fulfilled method_not_allowed, w).
Proof. intros H. unfold fetch. by rewrite H. Qed.

Lemma fetch_listing_rejected request env w :
  Js.includes ["GET"; "HEAD"] (req_method request) = true →
  isListBucketRequest env (normalized_path (req_url request)) = true →
  list_bucket_allowed env = false →
  fetch aws_sign upstream request env w = (Fulfilled not_found, w).
Proof.
  intros Hm Hl Ha. unfold fetch, list_bucket_allowed in *. rewrite Hm. simpl.
  change (normalized_path (URL_set_port _ _))
    with (normalized_path (req_url request)).
  by rewrite Hl, Ha.
Qed.

(** A request that passes both checks is signed once, for [GET], and
    dispatched. *)
Lemma fetch_forwarded request env w :
  forwarded request env = true →
  fetch aws_sign upstream request env w
  = dispatch upstream (signed_request aws_sign request env) (req_method request)
             (World_emit w (sign_event request env)).
Proof.
  unfold forwarded, list_bucket_allowed. intros [Hm Hl]%andb_true_iff.
  unfold fetch. rewrite Hm. simpl.
  change (normalized_path (URL_set_port _ _))
    with (normalized_path (req_url request)).
  apply negb_true_iff in Hl. rewrite Hl.
  unfold signed_request, sign_event, upstream_url, rclone_download, rewritten_path.
  change (normalized_path (URL_set_port _ _))
    with (normalized_path (req_url request)).
  unfold mbind, Async_bind, client_sign.
  by destruct (String.eqb (Js.String_ (RCLONE_DOWNLOAD env)) "true"),
              (String.eqb (BUCKET_NAME env) "$path").
Qed.

Lemma forwarded_method request env :
  forwarded request env = true →
  req_method request = "GET" ∨ req_method request = "HEAD".
Proof.
  unfold forwarded. intros [Hm _]%andb_true_iff.
  apply includes_true in Hm.
  repeat (apply elem_of_cons in Hm as [->|Hm]; [auto|]).
  by apply elem_of_nil in Hm.
Qed.

Section Dispatch.

Variable signedRequest : SignedRequest.
Variable requestMethod : string.

#[local] Abbreviation run := (dispatch upstream signedRequest requestMethod).

(** Without a [range] header there is one fetch and no retry. *)
Lemma dispatch_plain w :
  Headers_has (signed_headers signedRequest) "range" = false →
  run w
  = (match upstream (fetches w) with
     | Some r => Fulfilled (respond requestMethod r)
     | None => Rejected
     end, fetched signedRequest w []).
Proof.
  intros Hr. unfold dispatch. rewrite Hr.
  unfold mbind, Async_bind, platform_fetch, fetched, fetch_event.
  by destruct (upstream (fetches w)).
Qed.

(** Whatever the upstream answers, the signed request is fetched between
    one and three times, nothing is signed, and the response handed back
    is the last one fetched, shaped for the request method. *)
Lemma dispatch_run w :
  ∃ evs k,
    (run w).2 = mkWorld (fetches w + S k) (trace w ++ evs)
    ∧ Forall (dispatch_event signedRequest) evs
    ∧ count is_fetch evs = S k
    ∧ (S k ≤ 3)%nat
    ∧ (run w).1 = match upstream (fetches w + k) with
                  | Some r => Fulfilled (respond requestMethod r)
                  | None => Rejected
                  end.
Proof.
  destruct (Headers_has (signed_headers signedRequest) "range") eqn:Hr.
  - destruct (range_loop_run upstream signedRequest RANGE_RETRY_ATTEMPTS w)
      as (evs & k & Hw & Hev & Hcnt & Hle & Hres).
    assert (Forall (dispatch_event signedRequest) evs) as Hev'.
    { eapply Forall_impl; [exact Hev|]. intros e [->|(? & ? & _)]; [by left|by right]. }
    unfold dispatch. rewrite Hr. unfold mbind, Async_bind.
    destruct (range_loop upstream signedRequest RANGE_RETRY_ATTEMPTS w)
      as [[vars|] w1]; simpl in Hw, Hres; subst w1.
    + destruct Hres as [Hup Hfin]. rewrite Hfin. simpl.
      destruct ((attempts vars <=? 0)%Z && _).
      * exists (evs ++ [EvConsoleError
                          (RetriesExhausted (signed_url signedRequest)
                                            RANGE_RETRY_ATTEMPTS)])%list, k.
        unfold console_error, World_emit. simpl. rewrite Hup.
        split_and!; try done.
        -- by rewrite app_assoc.
        -- apply Forall_app. split; [done|]. apply Forall_singleton. by right.
        -- by rewrite count_app, Hcnt, Nat.add_0_r.
      * exists evs, k. simpl. rewrite Hup. by split_and!.
    + exists evs, k. simpl. rewrite Hres. by split_and!.
  - rewrite dispatch_plain by done. exists [fetch_event signedRequest], 0%nat.
    rewrite Nat.add_0_r. simpl. split_and!; try done.
    + unfold fetched. f_equal. lia.
    + apply Forall_singleton. by left.
    + lia.
Qed.

(** Three ignored ranges in a row: three fetches, the third response is
    final, and the exhaustion diagnostic is written once. *)
Lemma dispatch_exhausted w r1 r2 r3 :
  Headers_has (signed_headers signedRequest) "range" = true →
  upstream (fetches w) = Some r1 → range_ignored r1 →
  upstream (fetches w + 1) = Some r2 → range_ignored r2 →
  upstream (fetches w + 2) = Some r3 → range_ignored r3 →
  ∃ evs,
    run w = (Fulfilled (respond requestMethod r3),
             mkWorld (fetches w + 3) (trace w ++ evs))
    ∧ count is_fetch evs = 3%nat
    ∧ count is_sign evs = 0%nat
    ∧ count is_exhaustion evs = 1%nat.
Proof.
  intros Hr Hu1 Hi1 Hu2 Hi2 Hu3 Hi3.
  destruct (range_loop_skip upstream signedRequest 2 0 w)
    as (evs & Heq & Hev & Hcnt).
  { intros [|[|i]] Hi; [| |lia].
    - rewrite Nat.add_0_r. eauto.
    - eauto. }
  destruct (count_fetch_loop_events signedRequest evs Hev) as [Hsig Hexh].
  unfold dispatch. rewrite Hr. unfold mbind, Async_bind.
  change RANGE_RETRY_ATTEMPTS with (1 + 2)%nat. rewrite Heq.
  rewrite (range_loop_last upstream signedRequest 1 _ r3); [|done|done|done].
  destruct Hi3 as [_ Hcr3]. simpl. rewrite Hcr3. simpl.
  eexists (evs ++ [_; _; _])%list.
  unfold console_error, World_emit, fetched. simpl. split_and!.
  - do 2 f_equal; [lia|]. by rewrite <-!app_assoc.
  - by rewrite count_app, Hcnt.
  - by rewrite count_app, Hsig.
  - by rewrite count_app, Hexh.
Qed.

(** After [k < 3] ignored ranges, a response that carries [content-range]
    or is outside the success class is final: [k + 1] fetches, and no
    exhaustion diagnostic. *)
Lemma dispatch_settled w k r :
  Headers_has (signed_headers signedRequest) "range" = true →
  (k < 3)%nat →
  (∀ i, (i < k)%nat →
        ∃ ri, upstream (fetches w + i) = Some ri ∧ range_ignored ri) →
  upstream (fetches w + k) = Some r →
  Headers_has (headers r) "content-range" = true ∨ ok r = false →
  ∃ evs,
    run w = (Fulfilled (respond requestMethod r),
             mkWorld (fetches w + S k) (trace w ++ evs))
    ∧ count is_fetch evs = S k
    ∧ count is_sign evs = 0%nat
    ∧ count is_exhaustion evs = 0%nat.
Proof.
  intros Hr Hk Hpre Hup Hstop.
  destruct (range_loop_skip upstream signedRequest k (2 - k) w Hpre)
    as (evs & Heq & Hev & Hcnt).
  destruct (count_fetch_loop_events signedRequest evs Hev) as [Hsig Hexh].
  unfold dispatch. rewrite Hr. unfold mbind, Async_bind.
  replace RANGE_RETRY_ATTEMPTS with (S (2 - k) + k)%nat
    by (unfold RANGE_RETRY_ATTEMPTS; lia).
  rewrite Heq.
  assert ((Z.of_nat (S (2 - k)) <=? 0)%Z = false) as Hpos
    by (apply Z.leb_gt; lia).
  destruct (Headers_has (headers r) "content-range") eqn:Hcr.
  - erewrite range_loop_content_range; [|done..]. unfold attempts at 1. rewrite Hpos. simpl.
    eexists (evs ++ fetch_event signedRequest :: _)%list.
    unfold fetched. simpl. split_and!.
    + do 2 f_equal; [lia|]. by rewrite <-app_assoc.
    + rewrite count_app, Hcnt. unfold count. simpl.
      destruct (_ <? _)%nat; simpl; lia.
    + rewrite count_app, Hsig. unfold count. simpl. by destruct (_ <? _)%nat.
    + rewrite count_app, Hexh. unfold count. simpl. by destruct (_ <? _)%nat.
  - destruct Hstop as [|Hok]; [done|].
    erewrite range_loop_not_ok; [|done..]. unfold attempts at 1. rewrite Hpos. simpl.
    eexists (evs ++ [fetch_event signedRequest])%list.
    unfold fetched. simpl. split_and!.
    + do 2 f_equal; [lia|]. by rewrite <-app_assoc.
    + rewrite count_app, Hcnt. unfold count. simpl. lia.
    + by rewrite count_app, Hsig.
    + by rewrite count_app, Hexh.
Qed.

End Dispatch.

End HandlerRuns.

(** ** ResponseShaper *)

Lemma addCacheHeaders_not_ok response ttl :
  ok response = false → addCacheHeaders response ttl = response.
Proof. intros H. unfold addCacheHeaders. by rewrite H. Qed.

Lemma addCacheHeaders_ok response ttl :
  ok response = true →
  Headers_wf (headers response) →
  addCacheHeaders response ttl
  = {| body := body response;
       status := status response;
       statusText := statusText response;
       headers := <["cache-control" := "public, max-age=" +:+ pretty ttl]>
                    (headers response) |}.
Proof.
  intros H Hwf. unfold addCacheHeaders, new_Response. rewrite H. simpl.
  rewrite (Headers_copy_wf (headers response)) by done.
  rewrite Headers_copy_wf; [done|]. by apply Headers_set_wf.
Qed.

Lemma createHeadResponse_wf response :
  Headers_wf (headers response) →
  createHeadResponse response
  = {| body := None;
       status := status response;
       statusText := statusText response;
       headers := headers response |}.
Proof.
  intros Hwf. unfold createHeadResponse, new_Response.
  rewrite (Headers_copy_wf (headers response)) by done.
  by rewrite Headers_copy_wf.
Qed.

Lemma createHeadResponse_headers_wf response :
  Headers_wf (headers (createHeadResponse response)).
Proof. apply new_Headers_wf. Qed.

(** The responses the worker makes up carry no header. *)
Lemma new_Response_empty body status statusText :
  new_Response body status statusText ∅
  = {| body := body; status := status; statusText := statusText;
       headers := ∅ |}.
Proof. reflexivity. Qed.

Lemma cache_control_value :
  "public, max-age=" +:+ pretty BROWSER_CACHE_TTL_SECONDS
  = "public, max-age=2592000".
Proof. reflexivity. Qed.

(** What the handler may emit after signing contains no signing call, and
    its fetches are fetches of the signed request. *)
Lemma dispatch_events_signed s evs :
  Forall (dispatch_event s) evs →
  List.filter is_sign evs = []
  ∧ ∀ e, e ∈ evs → is_fetch e = true → e = fetch_event s.
Proof.
  induction 1 as [|e evs He _ [IHs IHf]]; [split; [done|]|].
  - intros e Hin. by apply elem_of_nil in Hin.
  - split.
    + simpl. destruct He as [->|[_ ->]]; done.
    + intros e' [->|Hin]%elem_of_cons Hf; [|by apply IHf].
      destruct He as [->|[Hf' _]]; [done|congruence].
Qed.

(** ** HeaderFilter *)

(** The filter looks at the name only. *)
Lemma kept_name env name value :
  kept env (name, value) = true
  ↔ (name ∉ UNSIGNABLE_HEADERS)
    ∧ Js.startsWith name "cf-" = false
    ∧ (∀ allowed, ALLOWED_HEADERS env = Some allowed → name ∈ allowed).
Proof.
  unfold kept. simpl fst.
  rewrite negb_true_iff, !orb_false_iff, includes_false.
  split.
  - intros ((Hu & Hcf) & Hal). split_and!; [done..|].
    intros allowed Heq. rewrite Heq in Hal.
    by apply negb_false_iff, includes_true in Hal.
  - intros (Hu & Hcf & Hal). split_and!; [done..|].
    destruct (ALLOWED_HEADERS env) as [allowed|]; [|done].
    by apply negb_false_iff, includes_true, Hal.
Qed.

Lemma filterHeaders_lookup h env name :
  Headers_wf h →
  filterHeaders h env !! name
  = if kept env (name, "") then h !! name else None.
Proof.
  intros Hwf. rewrite filterHeaders_filter by done.
  destruct (kept env (name, "")) eqn:Hk.
  - destruct (h !! name) as [v|] eqn:Hl.
    + by apply map_lookup_filter_Some_2.
    + apply map_lookup_filter_None. by left.
  - apply map_lookup_filter_None. right. intros v _.
    change (kept env (name, v)) with (kept env (name, "")). by rewrite Hk.
Qed.

(** A [range] header of the client reaches the signed request when the
    allow-list, if there is one, lets it through and the signer keeps the
    headers it is given. *)
Lemma range_header_signed
    (aws_sign : string → string → string → string → string → Headers
                → SignedRequest) request env :
  Headers_wf (req_headers request) →
  Headers_has (req_headers request) "range" = true →
  (∀ allowed, ALLOWED_HEADERS env = Some allowed → "range" ∈ allowed) →
  (∀ keyId key service url method headers name,
     Headers_has headers name = true →
     Headers_has (signed_headers
                    (aws_sign keyId key service url method headers)) name
     = true) →
  Headers_has (signed_headers (signed_request aws_sign request env)) "range"
  = true.
Proof.
  intros Hwf Hhas Hal Hkeeps. apply Hkeeps. unfold Headers_has in *.
  rewrite filterHeaders_lookup by done.
  assert (kept env (Js.toLowerCase "range", "") = true) as ->; [|done].
  apply kept_name. split_and!; [|done|done].
  apply includes_false. reflexivity.
Qed.

(** ** BucketResolver *)

(** In download mode a non-empty path whose rewritten form is empty is
    not a list-bucket request. *)
Lemma rewritten_empty_not_listing env path :
  path ≠ "" →
  rewritten_path env path = "" →
  isListBucketRequest env path = false.
Proof.
  intros Hne Hrw. unfold isListBucketRequest, rewritten_path in *.
  destruct (String.eqb (BUCKET_NAME env) "$path"); simpl.
  - rewrite orb_false_r. unfold Js.strip_file_prefix in Hrw.
    destruct (Js.after_prefix "file/" path) as [rest|] eqn:Hp; [|done].
    apply after_prefix_Some in Hp. subst rest path. reflexivity.
  - destruct path; [done|reflexivity].
Qed.

(** ** RangeRetryController *)

Section RangeRetry.

Variable aws_sign :
  string → string → string → string → string → Headers → SignedRequest.
Variable upstream : nat → option Response.

(** C1 (amended). A request whose signed headers carry [range] (the test
    the handler makes; the header of the client gets there unless an
    allow-list without [range] removes it), answered three times in a row
    by a success-class response without [content-range]: the handler
    fetches exactly three times, the third response is the final one
    (shaped for the request method), and the exhaustion diagnostic is
    written exactly once. *)
Theorem range_retry_exhausted request env r1 r2 r3 :
  forwarded request env = true →
  Headers_has (signed_headers (signed_request aws_sign request env)) "range"
  = true →
  upstream 0%nat = Some r1 → range_ignored r1 →
  upstream 1%nat = Some r2 → range_ignored r2 →
  upstream 2%nat = Some r3 → range_ignored r3 →
  ∃ w',
    fetch aws_sign upstream request env initial
    = (Fulfilled (respond (req_method request) r3), w')
    ∧ fetches w' = 3%nat
    ∧ count is_fetch (trace w') = 3%nat
    ∧ count is_exhaustion (trace w') = 1%nat.
Proof.
  intros Hfwd Hrange Hu1 Hi1 Hu2 Hi2 Hu3 Hi3.
  rewrite fetch_forwarded by done.
  edestruct (dispatch_exhausted upstream (signed_request aws_sign request env)
               (req_method request)
               (World_emit initial (sign_event request env)) r1 r2 r3)
    as (evs & -> & Hf & _ & He); [done..|].
  eexists. split; [done|]. simpl. split_and!; [done| |].
  - change (sign_event request env :: evs)
      with ([sign_event request env] ++ evs)%list.
    by rewrite count_app, Hf.
  - change (sign_event request env :: evs)
      with ([sign_event request env] ++ evs)%list.
    by rewrite count_app, He.
Qed.

(** C2 (amended). For a request whose signed headers carry [range], the
    first response that carries [content-range] is final whatever its
    status, and nothing is fetched after it: when the [k] responses
    before it were success-class without [content-range], exactly [k + 1]
    fetches occur and that response is the one returned (shaped for the
    request method). *)
Theorem content_range_is_final request env k r :
  forwarded request env = true →
  Headers_has (signed_headers (signed_request aws_sign request env)) "range"
  = true →
  (k < 3)%nat →
  (∀ i, (i < k)%nat → ∃ ri, upstream i = Some ri ∧ range_ignored ri) →
  upstream k = Some r →
  Headers_has (headers r) "content-range" = true →
  ∃ w',
    fetch aws_sign upstream request env initial
    = (Fulfilled (respond (req_method request) r), w')
    ∧ fetches w' = S k
    ∧ count is_fetch (trace w') = S k.
Proof.
  intros Hfwd Hrange Hk Hpre Hup Hcr.
  rewrite fetch_forwarded by done.
  edestruct (dispatch_settled upstream (signed_request aws_sign request env)
               (req_method request)
               (World_emit initial (sign_event request env)) k r)
    as (evs & -> & Hf & _ & _); [done..|by left|].
  eexists. split; [done|]. simpl. split; [done|].
  change (sign_event request env :: evs)
    with ([sign_event request env] ++ evs)%list.
  by rewrite count_app, Hf.
Qed.

End RangeRetry.

(** C1 on the sample request: three whole-object answers. *)
Lemma range_retry_exhausted_witness :
  ∃ w',
    fetch Sample.sign (Sample.replies [Sample.whole; Sample.whole; Sample.whole])
          Sample.get_range Sample.env initial
    = (Fulfilled (respond "GET" Sample.whole), w')
    ∧ fetches w' = 3%nat
    ∧ count is_fetch (trace w') = 3%nat
    ∧ count is_exhaustion (trace w') = 1%nat.
Proof.
  apply (range_retry_exhausted Sample.sign
           (Sample.replies [Sample.whole; Sample.whole; Sample.whole])
           Sample.get_range Sample.env Sample.whole Sample.whole Sample.whole);
    vm_compute; done.
Defined.

(** C2 on the sample request: a whole-object answer with status 200, then
    a 206 with [content-range]; two fetches, the 206 is returned. *)
Lemma content_range_is_final_witness :
  ∃ w',
    fetch Sample.sign (Sample.replies [Sample.whole; Sample.partial])
          Sample.get_range Sample.env initial
    = (Fulfilled (respond "GET" Sample.partial), w')
    ∧ fetches w' = 2%nat
    ∧ count is_fetch (trace w') = 2%nat.
Proof.
  apply (content_range_is_final Sample.sign
           (Sample.replies [Sample.whole; Sample.partial])
           Sample.get_range Sample.env 1 Sample.partial).
  - vm_compute; done.
  - vm_compute; done.
  - lia.
  - intros [|i] Hi; [|lia]. exists Sample.whole. vm_compute; done.
  - reflexivity.
  - vm_compute; done.
Defined.

(** C1 as stated fails when the allow-list leaves [range] out: the
    request of the client carries [Range], the three answers are successes
    without [content-range], yet the signed request has no [range], so
    there is one fetch and no exhaustion diagnostic. *)
Lemma range_retry_needs_signed_range :
  Headers_has (req_headers Sample.get_range) "Range" = true
  ∧ Headers_has
      (signed_headers
         (signed_request Sample.sign Sample.get_range Sample.no_range_env))
      "range" = false
  ∧ range_ignored Sample.whole
  ∧ ∃ w',
      fetch Sample.sign
            (Sample.replies [Sample.whole; Sample.whole; Sample.whole])
            Sample.get_range Sample.no_range_env initial
      = (Fulfilled (respond "GET" Sample.whole), w')
      ∧ fetches w' = 1%nat
      ∧ count is_fetch (trace w') = 1%nat
      ∧ count is_exhaustion (trace w') = 0%nat.
Proof.
  split_and!; [by vm_compute..|].
  eexists. split; [by vm_compute|]. by vm_compute.
Qed.

(** C2 as stated fails in the same configuration: a 200 without
    [content-range] followed by a 206 with it gives one fetch, and the
    200 is what the client gets. *)
Lemma content_range_needs_signed_range :
  Headers_has (req_headers Sample.get_range) "Range" = true
  ∧ Headers_has (headers Sample.whole) "content-range" = false
  ∧ Headers_has (headers Sample.partial) "content-range" = true
  ∧ ∃ w',
      fetch Sample.sign (Sample.replies [Sample.whole; Sample.partial])
            Sample.get_range Sample.no_range_env initial
      = (Fulfilled (respond "GET" Sample.whole), w')
      ∧ fetches w' = 1%nat
      ∧ count is_fetch (trace w') = 1%nat
      ∧ respond "GET" Sample.whole ≠ respond "GET" Sample.partial.
Proof.
  split_and!; [by vm_compute..|].
  eexists. split; [by vm_compute|]. split_and!; [by vm_compute..|].
  intros Heq. apply (f_equal status) in Heq. vm_compute in Heq. discriminate.
Qed.

Section UpstreamErrors.

Variable aws_sign :
  string → string → string → string → string → Headers → SignedRequest.
Variable upstream : nat → option Response.

(** C3 (amended). On the range path, a response outside the success class
    and without [content-range] is never retried: the attempt that
    received it is the last, and the client gets its status, status text
    and headers unchanged, with no cache-control header added; the body is
    unchanged for a GET request and absent for a HEAD request. *)
Theorem upstream_error_not_retried request env k r :
  forwarded request env = true →
  Headers_has (signed_headers (signed_request aws_sign request env)) "range"
  = true →
  (k < 3)%nat →
  (∀ i, (i < k)%nat → ∃ ri, upstream i = Some ri ∧ range_ignored ri) →
  upstream k = Some r →
  ok r = false →
  Headers_has (headers r) "content-range" = false →
  Headers_wf (headers r) →
  ∃ out w',
    fetch aws_sign upstream request env initial = (Fulfilled out, w')
    ∧ fetches w' = S k
    ∧ count is_fetch (trace w') = S k
    ∧ status out = status r
    ∧ statusText out = statusText r
    ∧ headers out = headers r
    ∧ body out = (if String.eqb (req_method request) "HEAD"
                  then None else body r)
    ∧ (req_method request = "GET" → out = r).
Proof.
  intros Hfwd Hrange Hk Hpre Hup Hok Hcr Hwf.
  rewrite fetch_forwarded by done.
  edestruct (dispatch_settled upstream (signed_request aws_sign request env)
               (req_method request)
               (World_emit initial (sign_event request env)) k r)
    as (evs & -> & Hf & _ & _); [done..|by right|].
  eexists _, _. split; [done|]. simpl. split; [done|]. split.
  { change (sign_event request env :: evs)
      with ([sign_event request env] ++ evs)%list.
    by rewrite count_app, Hf. }
  unfold respond.
  destruct (forwarded_method _ _ Hfwd) as [-> | ->]; simpl.
  - rewrite addCacheHeaders_not_ok by done. by split_and!.
  - rewrite addCacheHeaders_not_ok by done.
    rewrite createHeadResponse_wf by done. by split_and!.
Qed.

End UpstreamErrors.

(** C3 on a GET request answered with 403: one fetch, the 403 is returned
    as it came. *)
Lemma upstream_error_not_retried_witness :
  ∃ out w',
    fetch Sample.sign (Sample.replies [Sample.denied])
          Sample.get_range Sample.env initial = (Fulfilled out, w')
    ∧ fetches w' = 1%nat
    ∧ count is_fetch (trace w') = 1%nat
    ∧ status out = 403
    ∧ statusText out = "Forbidden"
    ∧ headers out = headers Sample.denied
    ∧ body out = body Sample.denied
    ∧ ("GET" = "GET" → out = Sample.denied).
Proof.
  apply (upstream_error_not_retried Sample.sign (Sample.replies [Sample.denied])
           Sample.get_range Sample.env 0 Sample.denied).
  - vm_compute; done.
  - vm_compute; done.
  - lia.
  - intros i Hi. lia.
  - reflexivity.
  - vm_compute; done.
  - vm_compute; done.
  - apply new_Headers_wf.
Defined.

(** C3 as stated fails for a HEAD request: the 403 of the upstream has a
    body, the response handed to the client has none. *)
Lemma upstream_error_head_loses_body :
  forwarded Sample.head_range Sample.env = true
  ∧ Headers_has (signed_headers
                   (signed_request Sample.sign Sample.head_range Sample.env))
                "range" = true
  ∧ Sample.replies [Sample.denied] 0%nat = Some Sample.denied
  ∧ ok Sample.denied = false
  ∧ Headers_has (headers Sample.denied) "content-range" = false
  ∧ ∃ out,
      (fetch Sample.sign (Sample.replies [Sample.denied])
             Sample.head_range Sample.env initial).1 = Fulfilled out
      ∧ body out = None
      ∧ body out ≠ body Sample.denied.
Proof.
  split_and!; [vm_compute; done..|].
  exists (createHeadResponse Sample.denied).
  split_and!; [by vm_compute|done|done].
Qed.

(** ** ProxyOrchestrator *)

Section Orchestrator.

Variable aws_sign :
  string → string → string → string → string → Headers → SignedRequest.
Variable upstream : nat → option Response.

(** C9. A request whose method is neither GET nor HEAD gets a 405 with an
    empty body; nothing is resolved, signed or fetched: the world is left
    as it was. *)
Theorem other_methods_rejected request env w :
  req_method request ≠ "GET" →
  req_method request ≠ "HEAD" →
  fetch aws_sign upstream request env w
  = (Fulfilled {| body := None; status := 405;
                  statusText := "Method Not Allowed"; headers := ∅ |}, w).
Proof.
  intros Hget Hhead. apply fetch_method_rejected. apply includes_false.
  intros Hin. repeat (apply elem_of_cons in Hin as [?|Hin]; [done|]).
  by apply elem_of_nil in Hin.
Qed.

(** C6. A GET or HEAD request that is a list-bucket request ([$path] mode
    and fewer than two segments in the normalized path, or another mode
    and an empty normalized path) gets a 404 with an empty body when
    listing is not enabled; nothing is signed or fetched. *)
Theorem list_bucket_rejected request env w :
  req_method request = "GET" ∨ req_method request = "HEAD" →
  list_bucket_allowed env = false →
  (BUCKET_NAME env = "$path"
   ∧ (length (Js.split "/" (normalized_path (req_url request))) < 2)%nat)
  ∨ (BUCKET_NAME env ≠ "$path" ∧ normalized_path (req_url request) = "") →
  fetch aws_sign upstream request env w
  = (Fulfilled {| body := None; status := 404;
                  statusText := "Not Found"; headers := ∅ |}, w).
Proof.
  intros Hm Hallow Hlist. apply fetch_listing_rejected; [| |done].
  - apply includes_true.
    destruct Hm as [-> | ->];
      [apply list_elem_of_here | apply list_elem_of_further, list_elem_of_here].
  - unfold isListBucketRequest. destruct Hlist as [[Hb Hlen]|[Hb Hpath]].
    + apply String.eqb_eq in Hb. apply Nat.ltb_lt in Hlen.
      by rewrite Hb, Hlen.
    + apply String.eqb_neq in Hb. by rewrite Hb, Hpath.
Qed.

(** C4. A request that is forwarded is signed exactly once, for the method
    GET whatever the method of the client was, and every fetch, the first
    one and the retries alike, is a fetch of the URL, method and headers
    of that one signed request; with a signer that keeps the method it is
    asked to sign for, every fetch is a GET. *)
Theorem signed_once_and_reused request env :
  forwarded request env = true →
  let signedRequest := signed_request aws_sign request env in
  let w' := (fetch aws_sign upstream request env initial).2 in
  List.filter is_sign (trace w')
  = [EvSign (B2_APPLICATION_KEY_ID env) (B2_APPLICATION_KEY env) "s3"
            (URL_toString (upstream_url request env)) "GET"
            (filterHeaders (req_headers request) env)]
  ∧ (1 ≤ count is_fetch (trace w') ≤ 3)%nat
  ∧ (∀ e, e ∈ trace w' → is_fetch e = true →
          e = EvFetch (signed_url signedRequest) (signed_method signedRequest)
                      (signed_headers signedRequest))
  ∧ ((∀ keyId key service url method headers,
        signed_method (aws_sign keyId key service url method headers) = method) →
     ∀ e, e ∈ trace w' → is_fetch e = true →
          e = EvFetch (signed_url signedRequest) "GET"
                      (signed_headers signedRequest)).
Proof.
  intros Hfwd signedRequest w'. subst signedRequest w'.
  rewrite fetch_forwarded by done.
  destruct (dispatch_run upstream (signed_request aws_sign request env)
              (req_method request)
              (World_emit initial (sign_event request env)))
    as (evs & k & -> & Hev & Hcnt & Hle & _).
  destruct (dispatch_events_signed _ _ Hev) as [Hsig Hfetch].
  assert (∀ e, e ∈ sign_event request env :: evs → is_fetch e = true →
               e = fetch_event (signed_request aws_sign request env)) as Hall.
  { intros e [->|Hin]%elem_of_cons Hf; [done|]. by apply Hfetch. }
  simpl. split_and!.
  - by rewrite Hsig.
  - change (sign_event request env :: evs)
      with ([sign_event request env] ++ evs)%list.
    rewrite count_app, Hcnt. unfold count. simpl. lia.
  - change (sign_event request env :: evs)
      with ([sign_event request env] ++ evs)%list.
    rewrite count_app, Hcnt. unfold count. simpl. lia.
  - exact Hall.
  - intros Hkeeps e Hin Hf. rewrite (Hall e Hin Hf).
    unfold fetch_event. f_equal. apply Hkeeps.
Qed.

End Orchestrator.

(** C9 on a POST request. *)
Lemma other_methods_rejected_witness :
  fetch Sample.sign (Sample.replies [Sample.whole]) Sample.post Sample.env initial
  = (Fulfilled {| body := None; status := 405;
                  statusText := "Method Not Allowed"; headers := ∅ |}, initial).
Proof.
  apply (other_methods_rejected Sample.sign (Sample.replies [Sample.whole])
           Sample.post Sample.env initial); vm_compute; discriminate.
Defined.

(** C6 on [GET /bucket/] in [$path] mode. *)
Lemma list_bucket_rejected_witness :
  fetch Sample.sign (Sample.replies [Sample.whole]) Sample.get_bucket
        Sample.env initial
  = (Fulfilled {| body := None; status := 404;
                  statusText := "Not Found"; headers := ∅ |}, initial).
Proof.
  apply (list_bucket_rejected Sample.sign (Sample.replies [Sample.whole])
           Sample.get_bucket Sample.env initial).
  - left. reflexivity.
  - reflexivity.
  - left. split; [reflexivity|]. vm_compute. lia.
Defined.

(** C4 on a HEAD request with a range, retried to exhaustion. *)
Lemma signed_once_and_reused_witness :
  let signedRequest := signed_request Sample.sign Sample.head_range Sample.env in
  let w' := (fetch Sample.sign
               (Sample.replies [Sample.whole; Sample.whole; Sample.whole])
               Sample.head_range Sample.env initial).2 in
  List.filter is_sign (trace w')
  = [EvSign "004a1b2c3d" "K004secret" "s3"
            "https://s3.us-west-004.backblazeb2.com/bucket/video.mp4" "GET"
            (filterHeaders (req_headers Sample.head_range) Sample.env)]
  ∧ (1 ≤ count is_fetch (trace w') ≤ 3)%nat
  ∧ (∀ e, e ∈ trace w' → is_fetch e = true →
          e = EvFetch (signed_url signedRequest) (signed_method signedRequest)
                      (signed_headers signedRequest))
  ∧ ((∀ keyId key service url method headers,
        signed_method (Sample.sign keyId key service url method headers)
        = method) →
     ∀ e, e ∈ trace w' → is_fetch e = true →
          e = EvFetch (signed_url signedRequest) "GET"
                      (signed_headers signedRequest)).
Proof.
  apply (signed_once_and_reused Sample.sign
           (Sample.replies [Sample.whole; Sample.whole; Sample.whole])
           Sample.head_range Sample.env).
  vm_compute; done.
Defined.

(** ** HeaderFilter *)

(** C5 (amended). Whatever headers arrive on the wire and whatever the
    configuration, the filtered set holds no name of the unsignable set
    and no name that starts with [cf-], however the name was capitalised,
    and, with an allow-list configured, no header whose lower-cased name
    is not an entry of that list as the entry is written (an entry with a
    capital letter matches no header); every other header keeps its
    value. *)
Theorem filtered_headers raw env :
  let incoming := new_Headers raw in
  let filtered := filterHeaders incoming env in
  (∀ name value, (name, value) ∈ Headers_entries filtered →
     (name ∉ UNSIGNABLE_HEADERS)
     ∧ Js.startsWith name "cf-" = false
     ∧ (∀ allowed, ALLOWED_HEADERS env = Some allowed → name ∈ allowed))
  ∧ (∀ name, Js.toLowerCase name ∈ UNSIGNABLE_HEADERS →
       Headers_has filtered name = false)
  ∧ (∀ name, Js.startsWith (Js.toLowerCase name) "cf-" = true →
       Headers_has filtered name = false)
  ∧ (∀ name allowed, ALLOWED_HEADERS env = Some allowed →
       Js.toLowerCase name ∉ allowed →
       Headers_has filtered name = false)
  ∧ (∀ name,
       Js.toLowerCase name ∉ UNSIGNABLE_HEADERS →
       Js.startsWith (Js.toLowerCase name) "cf-" = false →
       (∀ allowed, ALLOWED_HEADERS env = Some allowed →
                   Js.toLowerCase name ∈ allowed) →
       Headers_get filtered name = Headers_get incoming name).
Proof.
  intros incoming filtered.
  assert (Headers_wf incoming) as Hwf by apply new_Headers_wf.
  assert (∀ name, kept env (Js.toLowerCase name, "") = false →
                  Headers_has filtered name = false) as Hdrop.
  { intros name Hk. unfold Headers_has, filtered.
    rewrite filterHeaders_lookup, Hk by done.
    apply bool_decide_eq_false. by intros [? ?]. }
  split_and!.
  - intros name value Hin. apply elem_of_map_to_list in Hin.
    unfold filtered in Hin. rewrite filterHeaders_lookup in Hin by done.
    destruct (kept env (name, "")) eqn:Hk; [|done].
    by apply kept_name in Hk.
  - intros name Hin. apply Hdrop, not_true_iff_false.
    intros (? & _)%kept_name. done.
  - intros name Hcf. apply Hdrop, not_true_iff_false.
    intros (_ & ? & _)%kept_name. congruence.
  - intros name allowed Hal Hout. apply Hdrop, not_true_iff_false.
    intros (_ & _ & Hin)%kept_name. by apply Hout, Hin.
  - intros name Hu Hcf Hal. unfold Headers_get, filtered.
    rewrite filterHeaders_lookup by done.
    assert (kept env (Js.toLowerCase name, "") = true) as ->; [|done].
    by apply kept_name.
Qed.

(** C5 on the sample headers, with the allow-list
    [content-type, range, user-agent]: [CF-Ray], [X-Real-IP] and
    [Accept-Encoding] are gone, [Range] and [User-Agent] are kept. *)
Lemma filtered_headers_witness :
  let filtered :=
    filterHeaders (new_Headers Sample.wire_headers) Sample.strict_env in
  Headers_has filtered "X-Real-IP" = false
  ∧ Headers_has filtered "CF-Ray" = false
  ∧ Headers_has filtered "Accept-Encoding" = false
  ∧ Headers_get filtered "Range" = Some "bytes=0-3"
  ∧ Headers_get filtered "User-Agent" = Some "curl/8.5.0".
Proof.
  destruct (filtered_headers Sample.wire_headers Sample.strict_env)
    as (_ & Hu & Hcf & Hal & Hkeep).
  split_and!.
  - apply Hu, includes_true. reflexivity.
  - apply Hcf. reflexivity.
  - apply Hu, includes_true. reflexivity.
  - rewrite Hkeep; [reflexivity|..].
    + apply includes_false. reflexivity.
    + reflexivity.
    + intros allowed [= <-]. apply includes_true. reflexivity.
  - rewrite Hkeep; [reflexivity|..].
    + apply includes_false. reflexivity.
    + reflexivity.
    + intros allowed [= <-]. apply includes_true. reflexivity.
Defined.

(** C5 as stated fails with an allow-list written with capitals: [Range]
    and [User-Agent] are on the list, neither is unsignable or starts
    with [cf-], and both are removed. *)
Lemma allow_list_entries_are_case_sensitive :
  let incoming := new_Headers Sample.wire_headers in
  let filtered := filterHeaders incoming Sample.capital_env in
  ALLOWED_HEADERS Sample.capital_env = Some ["Range"; "User-Agent"]
  ∧ Headers_get incoming "Range" = Some "bytes=0-3"
  ∧ Js.includes UNSIGNABLE_HEADERS (Js.toLowerCase "Range") = false
  ∧ Js.startsWith (Js.toLowerCase "Range") "cf-" = false
  ∧ Headers_has filtered "Range" = false
  ∧ Headers_get filtered "Range" ≠ Headers_get incoming "Range"
  ∧ Headers_entries filtered = [].
Proof.
  split_and!; by vm_compute.
Qed.

(** ** ResponseShaper *)

(** [addCacheHeaders] on its own argument: for a success-class response,
    the result has [Cache-Control] equal to [public, max-age=2592000],
    whatever value it had before, and the same other headers, status,
    status text and body; a response outside the success class is handed
    back as it is. *)
Theorem cache_headers_added response :
  Headers_wf (headers response) →
  let out := addCacheHeaders response BROWSER_CACHE_TTL_SECONDS in
  (ok response = true →
     Headers_get (headers out) "Cache-Control" = Some "public, max-age=2592000"
     ∧ (∀ name, Js.toLowerCase name ≠ "cache-control" →
                Headers_get (headers out) name
                = Headers_get (headers response) name)
     ∧ status out = status response
     ∧ statusText out = statusText response
     ∧ body out = body response)
  ∧ (ok response = false → out = response).
Proof.
  intros Hwf out. subst out. split.
  - intros Hok. rewrite addCacheHeaders_ok by done. simpl.
    unfold Headers_get. split_and!; try done.
    + apply lookup_insert_eq.
    + intros name Hne. by apply lookup_insert_ne.
  - intros Hok. by apply addCacheHeaders_not_ok.
Qed.

(** On a 200 response that came with [Cache-Control: no-store]. *)
Lemma cache_headers_added_witness :
  let out := addCacheHeaders Sample.whole BROWSER_CACHE_TTL_SECONDS in
  Headers_get (headers Sample.whole) "Cache-Control" = Some "no-store"
  ∧ Headers_get (headers out) "Cache-Control" = Some "public, max-age=2592000"
  ∧ Headers_get (headers out) "Content-Type" = Some "video/mp4"
  ∧ status out = 200
  ∧ body out = Some "0123456789".
Proof.
  destruct (cache_headers_added Sample.whole (new_Headers_wf _))
    as [Hok _].
  destruct (Hok eq_refl) as (Hcc & Hother & Hst & _ & Hbody).
  split_and!.
  - reflexivity.
  - exact Hcc.
  - rewrite Hother; [reflexivity|]. vm_compute. discriminate.
  - exact Hst.
  - exact Hbody.
Defined.

Section Shaping.

Variable aws_sign :
  string → string → string → string → string → Headers → SignedRequest.
Variable upstream : nat → option Response.

(** C7 (amended). For a forwarded request whose last fetched response is
    [r]: when the method of the client was HEAD, the response handed back
    has the status and status text of [r], no body, and the headers of
    [r] with [Cache-Control] overwritten when [r] is success-class (the
    headers of [r] unchanged otherwise); when it was GET, the body of [r]
    is passed through unchanged. *)
Theorem head_response_has_no_body request env r :
  forwarded request env = true →
  let w' := (fetch aws_sign upstream request env initial).2 in
  upstream (pred (fetches w')) = Some r →
  Headers_wf (headers r) →
  ∃ out,
    (fetch aws_sign upstream request env initial).1 = Fulfilled out
    ∧ (req_method request = "HEAD" →
         status out = status r
         ∧ statusText out = statusText r
         ∧ body out = None
         ∧ headers out
           = if ok r
             then Headers_set (headers r) "Cache-Control"
                              "public, max-age=2592000"
             else headers r)
    ∧ (req_method request = "GET" → body out = body r).
Proof.
  intros Hfwd w'. subst w'. rewrite fetch_forwarded by done.
  destruct (dispatch_run upstream (signed_request aws_sign request env)
              (req_method request)
              (World_emit initial (sign_event request env)))
    as (evs & k & -> & _ & _ & _ & ->).
  simpl. intros -> Hwf. eexists. split; [done|].
  unfold respond. split.
  - intros ->. simpl.
    destruct (ok r) eqn:Hok.
    + rewrite addCacheHeaders_ok;
        [|done|by apply createHeadResponse_headers_wf].
      rewrite createHeadResponse_wf by done. by split_and!.
    + rewrite addCacheHeaders_not_ok by done.
      rewrite createHeadResponse_wf by done. by split_and!.
  - intros ->. simpl. unfold addCacheHeaders. by destruct (ok r).
Qed.

End Shaping.

(** C7 on a HEAD request answered with a 200 that has a body. *)
Lemma head_response_has_no_body_witness :
  ∃ out,
    (fetch Sample.sign (Sample.replies [Sample.whole]) Sample.head_plain
           Sample.env initial).1 = Fulfilled out
    ∧ ("HEAD" = "HEAD" →
         status out = 200
         ∧ statusText out = "OK"
         ∧ body out = None
         ∧ headers out
           = Headers_set (headers Sample.whole) "Cache-Control"
                         "public, max-age=2592000")
    ∧ ("HEAD" = "GET" → body out = Some "0123456789").
Proof.
  apply (head_response_has_no_body Sample.sign (Sample.replies [Sample.whole])
           Sample.head_plain Sample.env Sample.whole).
  - vm_compute; done.
  - vm_compute; done.
  - apply new_Headers_wf.
Defined.

(** C7 as stated fails for a HEAD request answered with a 200: the
    response handed back does not have the headers of the upstream
    response, its [Cache-Control] is overwritten. *)
Lemma head_response_headers_differ :
  forwarded Sample.head_plain Sample.env = true
  ∧ Sample.replies [Sample.whole] 0%nat = Some Sample.whole
  ∧ ∃ out,
      (fetch Sample.sign (Sample.replies [Sample.whole]) Sample.head_plain
             Sample.env initial).1 = Fulfilled out
      ∧ Headers_get (headers Sample.whole) "Cache-Control" = Some "no-store"
      ∧ Headers_get (headers out) "Cache-Control"
        = Some "public, max-age=2592000"
      ∧ headers out ≠ headers Sample.whole.
Proof.
  split_and!; [vm_compute; done..|].
  exists (respond "HEAD" Sample.whole).
  split_and!; [by vm_compute..|].
  intros Heq. apply (f_equal (λ h, Headers_get h "Cache-Control")) in Heq.
  vm_compute in Heq. discriminate.
Qed.

Section CacheHeaders.

Variable aws_sign :
  string → string → string → string → string → Headers → SignedRequest.
Variable upstream : nat → option Response.

(** C8 (amended). For a forwarded request whose last fetched response is
    [r], the response handed back has the status and status text of [r].
    When [r] is success-class, its [Cache-Control] is
    [public, max-age=2592000], whatever value [r] had, and every other
    header is that of [r]; otherwise its headers are those of [r], with no
    cache header added. The body is that of [r] for a GET request and
    absent for a HEAD request; a response outside the success class goes
    back to a GET request as it came. *)
Theorem cache_headers_on_outgoing request env r :
  forwarded request env = true →
  let w' := (fetch aws_sign upstream request env initial).2 in
  upstream (pred (fetches w')) = Some r →
  Headers_wf (headers r) →
  ∃ out,
    (fetch aws_sign upstream request env initial).1 = Fulfilled out
    ∧ status out = status r
    ∧ statusText out = statusText r
    ∧ body out = (if String.eqb (req_method request) "HEAD"
                  then None else body r)
    ∧ (ok r = true →
         Headers_get (headers out) "Cache-Control"
         = Some "public, max-age=2592000"
         ∧ (∀ name, Js.toLowerCase name ≠ "cache-control" →
                    Headers_get (headers out) name
                    = Headers_get (headers r) name))
    ∧ (ok r = false →
         headers out = headers r
         ∧ (req_method request = "GET" → out = r)).
Proof.
  intros Hfwd w'. subst w'. rewrite fetch_forwarded by done.
  destruct (dispatch_run upstream (signed_request aws_sign request env)
              (req_method request)
              (World_emit initial (sign_event request env)))
    as (evs & k & -> & _ & _ & _ & ->).
  simpl. intros -> Hwf. eexists. split; [done|].
  unfold respond.
  destruct (forwarded_method _ _ Hfwd) as [-> | ->]; simpl.
  - destruct (ok r) eqn:Hok.
    + rewrite addCacheHeaders_ok by done. simpl. split_and!; try done.
      * intros _. unfold Headers_get. split; [apply lookup_insert_eq|].
        intros name Hne. by apply lookup_insert_ne.
    + rewrite addCacheHeaders_not_ok by done. by split_and!.
  - rewrite createHeadResponse_wf by done.
    destruct (ok r) eqn:Hok.
    + rewrite addCacheHeaders_ok by done. simpl. split_and!; try done.
      * intros _. unfold Headers_get. split; [apply lookup_insert_eq|].
        intros name Hne. by apply lookup_insert_ne.
    + rewrite addCacheHeaders_not_ok by done. simpl. by split_and!.
Qed.

End CacheHeaders.

(** C8 on a GET request answered with a 200 that came with
    [Cache-Control: no-store]. *)
Lemma cache_headers_on_outgoing_witness :
  ∃ out,
    (fetch Sample.sign (Sample.replies [Sample.whole]) Sample.get_query
           Sample.host_env initial).1 = Fulfilled out
    ∧ status out = 200
    ∧ statusText out = "OK"
    ∧ body out = Some "0123456789"
    ∧ (ok Sample.whole = true →
         Headers_get (headers out) "Cache-Control"
         = Some "public, max-age=2592000"
         ∧ (∀ name, Js.toLowerCase name ≠ "cache-control" →
                    Headers_get (headers out) name
                    = Headers_get (headers Sample.whole) name))
    ∧ (ok Sample.whole = false →
         headers out = headers Sample.whole
         ∧ ("GET" = "GET" → out = Sample.whole)).
Proof.
  apply (cache_headers_on_outgoing Sample.sign (Sample.replies [Sample.whole])
           Sample.get_query Sample.host_env Sample.whole).
  - by vm_compute.
  - by vm_compute.
  - apply new_Headers_wf.
Defined.

(** C8 as stated fails for a HEAD request: the final upstream response, a
    200, has a body and the response handed back has none. *)
Lemma cache_headers_head_loses_body :
  forwarded Sample.head_plain Sample.env = true
  ∧ Sample.replies [Sample.whole] 0%nat = Some Sample.whole
  ∧ ok Sample.whole = true
  ∧ ∃ out,
      (fetch Sample.sign (Sample.replies [Sample.whole]) Sample.head_plain
             Sample.env initial).1 = Fulfilled out
      ∧ Headers_get (headers out) "Cache-Control"
        = Some "public, max-age=2592000"
      ∧ body out = None
      ∧ body out ≠ body Sample.whole.
Proof.
  split_and!; [by vm_compute..|].
  exists (respond "HEAD" Sample.whole).
  split_and!; [by vm_compute..|done].
Qed.

(** ** BucketResolver in download mode *)

Section DownloadMode.

Variable aws_sign :
  string → string → string → string → string → Headers → SignedRequest.
Variable upstream : nat → option Response.

(** C10 (amended). In download mode the list-bucket check looks at the
    normalized path, before the [file/] prefix is stripped. With listing
    disabled: in [$path] mode a request whose whole normalized path is
    [file] is rejected with 404 and nothing is signed or fetched (its
    rewritten path would be [file] itself, as only [file/] is stripped);
    and a request whose non-empty normalized path becomes empty by the
    stripping is not a list-bucket request: it is signed and fetched. *)
Theorem listing_checked_before_rewrite request env :
  req_method request = "GET" ∨ req_method request = "HEAD" →
  rclone_download env = true →
  list_bucket_allowed env = false →
  let path := normalized_path (req_url request) in
  (BUCKET_NAME env = "$path" → path = "file" →
     rewritten_path env path = "file"
     ∧ ∀ w, fetch aws_sign upstream request env w
            = (Fulfilled {| body := None; status := 404;
                            statusText := "Not Found"; headers := ∅ |}, w))
  ∧ (path ≠ "" → rewritten_path env path = "" →
       let w' := (fetch aws_sign upstream request env initial).2 in
       isListBucketRequest env path = false
       ∧ count is_sign (trace w') = 1%nat
       ∧ (1 ≤ count is_fetch (trace w'))%nat
       ∧ pathname (upstream_url request env) = "/").
Proof.
  intros Hm Hdl Hallow path.
  assert (Js.includes ["GET"; "HEAD"] (req_method request) = true) as Hinc.
  { apply includes_true.
    destruct Hm as [-> | ->];
      [apply list_elem_of_here | apply list_elem_of_further, list_elem_of_here]. }
  split.
  - intros Hb Hp. apply String.eqb_eq in Hb. split.
    + unfold rewritten_path. by rewrite Hb, Hp.
    + intros w. apply fetch_listing_rejected; [done| |done].
      fold path. unfold isListBucketRequest. by rewrite Hb, Hp.
  - intros Hne Hrw w'. subst w'.
    pose proof (rewritten_empty_not_listing env path Hne Hrw) as Hnl.
    assert (forwarded request env = true) as Hfwd.
    { unfold forwarded. fold path. by rewrite Hinc, Hnl. }
    rewrite fetch_forwarded by done.
    destruct (dispatch_run upstream (signed_request aws_sign request env)
                (req_method request)
                (World_emit initial (sign_event request env)))
      as (evs & k & -> & Hev & Hcnt & _ & _).
    destruct (dispatch_events_signed _ _ Hev) as [Hsig _].
    simpl. split_and!; [done| | |].
    + unfold count. simpl. by rewrite Hsig.
    + change (sign_event request env :: evs)
        with ([sign_event request env] ++ evs)%list.
      rewrite count_app, Hcnt. lia.
    + unfold upstream_url. rewrite Hdl.
      change (normalized_path (URL_set_port _ _)) with path.
      by rewrite Hrw.
Qed.

End DownloadMode.

(** C10 on [GET /file//] in [$path] mode: the normalized path [file/]
    becomes empty by the stripping, and the request is forwarded. *)
Lemma listing_checked_before_rewrite_witness :
  let w' := (fetch Sample.sign (Sample.replies [Sample.denied])
                   Sample.get_file_slash Sample.download_env initial).2 in
  isListBucketRequest Sample.download_env "file/" = false
  ∧ count is_sign (trace w') = 1%nat
  ∧ (1 ≤ count is_fetch (trace w'))%nat
  ∧ pathname (upstream_url Sample.get_file_slash Sample.download_env) = "/".
Proof.
  destruct (listing_checked_before_rewrite Sample.sign
              (Sample.replies [Sample.denied])
              Sample.get_file_slash Sample.download_env)
    as [_ Hfw].
  - left. reflexivity.
  - reflexivity.
  - reflexivity.
  - apply Hfw.
    + vm_compute. discriminate.
    + reflexivity.
Defined.

(** C10 as stated fails on [GET /file] in [$path] mode: the request is
    rejected as a list-bucket request, but its rewritten path would not be
    empty; it would be [file]. *)
Lemma rewritten_file_path_not_empty :
  BUCKET_NAME Sample.download_env = "$path"
  ∧ rclone_download Sample.download_env = true
  ∧ list_bucket_allowed Sample.download_env = false
  ∧ normalized_path (req_url Sample.get_file) = "file"
  ∧ fetch Sample.sign (Sample.replies [Sample.whole]) Sample.get_file
          Sample.download_env initial
    = (Fulfilled not_found, initial)
  ∧ rewritten_path Sample.download_env
                   (normalized_path (req_url Sample.get_file)) = "file"
  ∧ rewritten_path Sample.download_env
                   (normalized_path (req_url Sample.get_file)) ≠ "".
Proof. split_and!; [reflexivity..|discriminate]. Qed.

(** * Beyond the orchestrator: paths, hosts, traces *)

(** ** Strings *)

Lemma split_without_separator c s : occurs c s = false → Js.split c s = [s].
Proof.
  induction s as [|a s IH]; simpl; [done|].
  intros [Ha Hs]%orb_false_iff. by rewrite Ha, IH.
Qed.

Lemma split_with_separator c s :
  occurs c s = true → (2 ≤ length (Js.split c s))%nat.
Proof.
  induction s as [|a s IH]; simpl; [done|].
  destruct (Ascii.eqb a c); simpl.
  - intros _. pose proof (split_nonempty c s).
    destruct (Js.split c s); [done|simpl; lia].
  - intros Hs. specialize (IH Hs).
    destruct (Js.split c s); simpl in *; lia.
Qed.

Lemma split_head c label rest :
  occurs c label = false →
  head (Js.split c (label +:+ String c rest)) = Some label.
Proof.
  induction label as [|a l IH]; simpl.
  - intros _. by rewrite Ascii.eqb_refl.
  - intros [Ha Hl]%orb_false_iff. rewrite Ha. specialize (IH Hl).
    by destruct (Js.split c (l +:+ String c rest)); simplify_eq/=.
Qed.

Lemma strip_trailing_slash_app s : Js.strip_trailing_slash (s +:+ "/") = s.
Proof.
  induction s as [|a s IH]; [done|]. simpl.
  rewrite IH. destruct (s +:+ "/") eqn:E; [by destruct s|].
  by destruct a as [[] [] [] [] [] [] [] []].
Qed.

Lemma strip_trailing_slash_id s :
  last_char s ≠ Some "/"%char → Js.strip_trailing_slash s = s.
Proof.
  induction s as [|a s IH]; [done|]. destruct s as [|b s].
  - simpl. intros Hne.
    destruct a as [[] [] [] [] [] [] [] []]; try reflexivity. by destruct Hne.
  - intros Hne. change (last_char (String a (String b s)))
      with (last_char (String b s)) in Hne.
    specialize (IH Hne).
    change (Js.strip_trailing_slash (String a (String b s)))
      with (match a with
            | "/"%char | _ => String a (Js.strip_trailing_slash (String b s))
            end).
    rewrite IH. destruct a as [[] [] [] [] [] [] [] []]; reflexivity.
Qed.

Lemma after_prefix_None p s :
  Js.after_prefix p s = None ↔ Js.startsWith s p = false.
Proof.
  revert s. induction p as [|b p IH]; intros s; destruct s as [|a s]; simpl;
    try (split; discriminate); try done.
  destruct (Ascii.eqb a b); [apply IH|done].
Qed.

Lemma after_first_slash_app segment rest :
  occurs "/" segment = false →
  Js.after_first_slash (segment +:+ String "/" rest)
  = Some (String.length segment, rest).
Proof.
  induction segment as [|a s IH]; simpl; [done|].
  intros [Ha Hs]%orb_false_iff. rewrite (IH Hs).
  apply Ascii.eqb_neq in Ha.
  destruct a as [[] [] [] [] [] [] [] []]; done.
Qed.

Lemma after_first_slash_None s :
  occurs "/" s = false → Js.after_first_slash s = None.
Proof.
  induction s as [|a s IH]; simpl; [done|].
  intros [Ha Hs]%orb_false_iff. rewrite (IH Hs).
  apply Ascii.eqb_neq in Ha.
  destruct a as [[] [] [] [] [] [] [] []]; done.
Qed.

Lemma pretty_N_go_start x s : numeric_start s → numeric_start (pretty_N_go x s).
Proof.
  revert s. induction (N.lt_wf_0 x) as [x _ IH]; intros s Hs.
  assert (x = 0 ∨ 0 < x)%N as [->|Hx] by lia.
  - by rewrite pretty_N_go_0.
  - rewrite pretty_N_go_step by done. apply IH.
    + by apply N.div_lt.
    + simpl. unfold pretty_N_char. by repeat case_match.
Qed.

Lemma pretty_Z_not_true (n : Z) : pretty n ≠ "true".
Proof.
  assert (∀ x : N, numeric_start (pretty x)) as HN.
  { intros x. unfold pretty, pretty_N. case_decide; [done|].
    by apply pretty_N_go_start. }
  intros Heq. destruct n as [|p|p]; [done| |done].
  specialize (HN (Npos p)). unfold pretty, pretty_Z, pretty, pretty_positive in Heq.
  rewrite Heq in HN. by apply HN.
Qed.

Lemma occurs_app c s t : occurs c (s +:+ t) = occurs c s || occurs c t.
Proof.
  induction s as [|a s IH]; simpl; [done|]. by rewrite IH, orb_assoc.
Qed.

Lemma no_slash_last_char s : occurs "/" s = false → last_char s ≠ Some "/"%char.
Proof.
  induction s as [|a s IH]; [done|]. simpl occurs.
  intros [Ha Hs]%orb_false_iff. destruct s as [|b s].
  - intros [= ->]. by rewrite Ascii.eqb_refl in Ha.
  - by apply IH.
Qed.

(** ** BucketResolver: paths *)

Lemma isListBucketRequest_path_mode env path :
  BUCKET_NAME env = "$path" →
  isListBucketRequest env path = negb (occurs "/" path).
Proof.
  unfold isListBucketRequest. intros ->. simpl. rewrite orb_false_r.
  destruct (occurs "/" path) eqn:Ho.
  - apply split_with_separator in Ho. simpl. apply Nat.ltb_ge. lia.
  - by rewrite split_without_separator.
Qed.

Lemma normalized_path_slashes url p :
  pathname url = "/" +:+ p +:+ "/" → normalized_path url = p.
Proof.
  unfold normalized_path. intros ->. simpl. apply strip_trailing_slash_app.
Qed.

Lemma normalized_path_leading_slash url p :
  pathname url = "/" +:+ p → last_char p ≠ Some "/"%char →
  normalized_path url = p.
Proof.
  unfold normalized_path. intros -> Hp. simpl.
  by apply strip_trailing_slash_id.
Qed.

(** X1. In [$path] mode a request is a list-bucket request exactly when its
    normalized path holds no slash (a bucket and nothing else, or nothing
    at all); in the other modes exactly when the normalized path is
    empty. *)
Theorem list_bucket_request_iff env path :
  (BUCKET_NAME env = "$path" →
     isListBucketRequest env path = negb (occurs "/" path))
  ∧ (BUCKET_NAME env ≠ "$path" →
       (isListBucketRequest env path = true ↔ path = "")).
Proof.
  split; [apply isListBucketRequest_path_mode|].
  unfold isListBucketRequest.
  intros Hb%String.eqb_neq. rewrite Hb. simpl.
  destruct path; simpl; [done|]. split; discriminate.
Qed.

Lemma list_bucket_request_iff_witness :
  isListBucketRequest Sample.env "bucket" = true
  ∧ isListBucketRequest Sample.env "bucket/video.mp4" = false
  ∧ (isListBucketRequest Sample.strict_env "" = true ↔ "" = "").
Proof.
  split_and!.
  - apply (proj1 (list_bucket_request_iff Sample.env "bucket")). reflexivity.
  - apply (proj1 (list_bucket_request_iff Sample.env "bucket/video.mp4")).
    reflexivity.
  - apply (proj2 (list_bucket_request_iff Sample.strict_env "")). discriminate.
Defined.

(** X2. Normalizing a path removes exactly one leading and one trailing
    slash: [/p/] becomes [p] whatever [p] is, and [/p] becomes [p] when
    [p] does not end with a slash. *)
Theorem normalized_path_one_slash url p :
  (pathname url = "/" +:+ p +:+ "/" → normalized_path url = p)
  ∧ (pathname url = "/" +:+ p → last_char p ≠ Some "/"%char →
       normalized_path url = p).
Proof.
  split; [apply normalized_path_slashes|apply normalized_path_leading_slash].
Qed.

Lemma normalized_path_one_slash_witness :
  normalized_path (Sample.url "//a//") = "/a/"
  ∧ normalized_path (Sample.url "/bucket/video.mp4") = "bucket/video.mp4".
Proof.
  split.
  - apply (proj1 (normalized_path_one_slash (Sample.url "//a//") "/a/")).
    reflexivity.
  - apply (proj2 (normalized_path_one_slash (Sample.url "/bucket/video.mp4")
                    "bucket/video.mp4")); [reflexivity|].
    vm_compute. discriminate.
Defined.


Section Forwarding.

Variable aws_sign :
  string → string → string → string → string → Headers → SignedRequest.
Variable upstream : nat → option Response.

(** A forwarded request leaves one signing call and one to three fetches
    in the trace, whatever the upstream answers. *)
Lemma forwarded_trace request env :
  forwarded request env = true →
  ∃ evs k,
    (fetch aws_sign upstream request env initial).2
    = mkWorld (S k) (sign_event request env :: evs)
    ∧ Forall (dispatch_event (signed_request aws_sign request env)) evs
    ∧ count is_fetch evs = S k
    ∧ (S k ≤ 3)%nat
    ∧ (fetch aws_sign upstream request env initial).1
      = match upstream k with
        | Some r => Fulfilled (respond (req_method request) r)
        | None => Rejected
        end.
Proof.
  intros Hfwd. rewrite fetch_forwarded by done.
  destruct (dispatch_run upstream (signed_request aws_sign request env)
              (req_method request)
              (World_emit initial (sign_event request env)))
    as (evs & k & Hw & Hev & Hcnt & Hle & Hres).
  exists evs, k. by rewrite Hw, Hres.
Qed.

Lemma forwarded_counts request env :
  forwarded request env = true →
  let w' := (fetch aws_sign upstream request env initial).2 in
  List.filter is_sign (trace w') = [sign_event request env]
  ∧ count is_sign (trace w') = 1%nat
  ∧ (1 ≤ count is_fetch (trace w') ≤ 3)%nat.
Proof.
  intros Hfwd w'. subst w'.
  destruct (forwarded_trace request env Hfwd)
    as (evs & k & -> & Hev & Hcnt & Hle & _).
  destruct (dispatch_events_signed _ _ Hev) as [Hsig _]. simpl.
  assert (count is_fetch (sign_event request env :: evs) = S k) as ->.
  { change (sign_event request env :: evs)
      with ([sign_event request env] ++ evs)%list.
    by rewrite count_app, Hcnt. }
  unfold count. simpl. rewrite Hsig. split_and!; [done|done|lia|done].
Qed.

(** X3. In [$path] mode with listing disabled, the root of a bucket,
    [/bucket] or [/bucket/], is answered with the 404 of the worker for
    every bucket name, the empty one included; nothing is signed or
    fetched. *)
Theorem bucket_root_not_listed request env bucket w :
  req_method request = "GET" ∨ req_method request = "HEAD" →
  BUCKET_NAME env = "$path" →
  list_bucket_allowed env = false →
  occurs "/" bucket = false →
  pathname (req_url request) = "/" +:+ bucket
  ∨ pathname (req_url request) = "/" +:+ bucket +:+ "/" →
  fetch aws_sign upstream request env w
  = (Fulfilled {| body := None; status := 404;
                  statusText := "Not Found"; headers := ∅ |}, w).
Proof.
  intros Hm Hb Hallow Hbucket Hpath.
  assert (normalized_path (req_url request) = bucket) as Hnorm.
  { destruct Hpath as [Hp|Hp].
    - apply normalized_path_leading_slash; [done|].
      by apply no_slash_last_char.
    - by apply normalized_path_slashes. }
  apply fetch_listing_rejected; [| |done].
  - apply includes_true.
    destruct Hm as [-> | ->];
      [apply list_elem_of_here | apply list_elem_of_further, list_elem_of_here].
  - rewrite Hnorm.
    rewrite isListBucketRequest_path_mode by done. by rewrite Hbucket.
Qed.

(** X4. With listing enabled, every GET or HEAD request is forwarded,
    list-bucket requests included: it is signed once and fetched at least
    once. *)
Theorem listing_enabled_forwards request env :
  req_method request = "GET" ∨ req_method request = "HEAD" →
  list_bucket_allowed env = true →
  let w' := (fetch aws_sign upstream request env initial).2 in
  forwarded request env = true
  ∧ count is_sign (trace w') = 1%nat
  ∧ (1 ≤ count is_fetch (trace w') ≤ 3)%nat.
Proof.
  intros Hm Hallow w'.
  assert (forwarded request env = true) as Hfwd.
  { unfold forwarded. rewrite Hallow, andb_false_r. simpl.
    rewrite andb_true_r. apply includes_true.
    destruct Hm as [-> | ->];
      [apply list_elem_of_here | apply list_elem_of_further, list_elem_of_here]. }
  split; [done|]. subst w'.
  by destruct (forwarded_counts request env Hfwd) as (_ & ? & ?).
Qed.



End Forwarding.

Lemma bucket_root_not_listed_witness :
  fetch Sample.sign (Sample.replies [Sample.whole]) Sample.get_bucket
        Sample.env initial
  = (Fulfilled {| body := None; status := 404;
                  statusText := "Not Found"; headers := ∅ |}, initial).
Proof.
  apply (bucket_root_not_listed Sample.sign (Sample.replies [Sample.whole])
           Sample.get_bucket Sample.env "bucket" initial).
  - left. reflexivity.
  - reflexivity.
  - reflexivity.
  - reflexivity.
  - right. reflexivity.
Defined.

Lemma listing_enabled_forwards_witness :
  let w' := (fetch Sample.sign (Sample.replies [Sample.whole])
                   Sample.get_bucket Sample.listing_env initial).2 in
  forwarded Sample.get_bucket Sample.listing_env = true
  ∧ count is_sign (trace w') = 1%nat
  ∧ (1 ≤ count is_fetch (trace w') ≤ 3)%nat.
Proof.
  apply (listing_enabled_forwards Sample.sign (Sample.replies [Sample.whole])
           Sample.get_bucket Sample.listing_env).
  - left. reflexivity.
  - reflexivity.
Defined.



(** X5. The two switches of the configuration are on exactly when their
    binding is the string [true] or the boolean [true]; any other string,
    a number, [false] or a missing binding leaves them off. *)
Theorem switches_on_iff_true env :
  (list_bucket_allowed env = true
   ↔ ALLOW_LIST_BUCKET env = Js.Str "true"
     ∨ ALLOW_LIST_BUCKET env = Js.Bool true)
  ∧ (rclone_download env = true
     ↔ RCLONE_DOWNLOAD env = Js.Str "true"
       ∨ RCLONE_DOWNLOAD env = Js.Bool true).
Proof.
  assert (∀ v, String.eqb (Js.String_ v) "true" = true
               ↔ v = Js.Str "true" ∨ v = Js.Bool true) as Hv.
  { intros v. rewrite String.eqb_eq. split.
    - destruct v as [|[]|n|s]; simpl.
      + discriminate.
      + by right.
      + discriminate.
      + intros Hn. by destruct (pretty_Z_not_true n).
      + intros ->. by left.
    - by intros [-> | ->]. }
  split; apply Hv.
Qed.

Lemma switches_on_iff_true_witness :
  list_bucket_allowed Sample.listing_env = true
  ∧ rclone_download Sample.download_env = true.
Proof.
  split.
  - apply (proj1 (switches_on_iff_true Sample.listing_env)). by right.
  - apply (proj2 (switches_on_iff_true Sample.download_env)). by left.
Defined.

(** ** BucketResolver: hosts and download paths *)

(** X7. In [$host] mode the host name that the worker assigns to the
    upstream URL is the first label of the incoming host name, up to its
    first dot or the whole name when it has no dot, followed by a dot and
    the endpoint. *)
Theorem host_mode_hostname env url label rest :
  BUCKET_NAME env = "$host" →
  occurs "." label = false →
  hostname url = label +:+ "." +:+ rest ∨ hostname url = label →
  upstream_hostname env url = label +:+ "." +:+ B2_ENDPOINT env.
Proof.
  intros Hb Hlabel Hhost. unfold upstream_hostname. rewrite Hb. simpl.
  destruct Hhost as [-> | ->].
  - change (label +:+ "." +:+ rest) with (label +:+ String "." rest).
    by rewrite split_head.
  - by rewrite split_without_separator.
Qed.

Lemma host_mode_hostname_witness :
  upstream_hostname Sample.host_env (req_url Sample.get_query)
  = "media.s3.us-west-004.backblazeb2.com".
Proof.
  apply (host_mode_hostname Sample.host_env (req_url Sample.get_query)
           "media" "example.workers.dev").
  - reflexivity.
  - reflexivity.
  - left. reflexivity.
Defined.

(** X8. Download mode with the bucket in the path: a leading [file/] is
    removed from the normalized path, once, and a path that does not
    start with [file/] is left as it is. *)
Theorem download_rewrite_path_mode env path rest :
  BUCKET_NAME env = "$path" →
  rewritten_path env ("file/" +:+ rest) = rest
  ∧ (Js.startsWith path "file/" = false → rewritten_path env path = path).
Proof.
  intros Hb. unfold rewritten_path. rewrite Hb. simpl String.eqb. cbv iota.
  split; [done|]. intros Hp%after_prefix_None.
  unfold Js.strip_file_prefix. by rewrite Hp.
Qed.

Lemma download_rewrite_path_mode_witness :
  rewritten_path Sample.download_env "file/file/x" = "file/x"
  ∧ rewritten_path Sample.download_env "files/x" = "files/x".
Proof.
  split.
  - apply (download_rewrite_path_mode Sample.download_env "" "file/x").
    reflexivity.
  - apply (download_rewrite_path_mode Sample.download_env "files/x" "");
      reflexivity.
Defined.

(** X9. Download mode with the bucket outside the path: [file/], one
    non-empty segment and its slash are removed, whatever the segment is
    (it is not compared with the configured bucket); [file/segment]
    without a key, [file//...] with an empty segment, and a path that
    does not start with [file/] are left as they are. *)
Theorem download_rewrite_bucket_mode env path segment rest :
  BUCKET_NAME env ≠ "$path" →
  occurs "/" segment = false →
  (segment ≠ "" →
     rewritten_path env ("file/" +:+ segment +:+ "/" +:+ rest) = rest)
  ∧ rewritten_path env ("file/" +:+ segment) = "file/" +:+ segment
  ∧ rewritten_path env ("file//" +:+ rest) = "file//" +:+ rest
  ∧ (Js.startsWith path "file/" = false → rewritten_path env path = path).
Proof.
  intros Hb%String.eqb_neq Hseg. unfold rewritten_path. rewrite Hb.
  unfold Js.strip_file_bucket_prefix. split_and!.
  - intros Hne.
    change (Js.after_prefix "file/" ("file/" +:+ segment +:+ "/" +:+ rest))
      with (Some (segment +:+ String "/" rest)).
    cbv iota beta. rewrite after_first_slash_app by done. by destruct segment.
  - change (Js.after_prefix "file/" ("file/" +:+ segment)) with (Some segment).
    cbv iota beta. by rewrite after_first_slash_None.
  - done.
  - intros Hp%after_prefix_None. by rewrite Hp.
Qed.

Lemma download_rewrite_bucket_mode_witness :
  rewritten_path Sample.strict_download_env "file/other/video.mp4" = "video.mp4"
  ∧ rewritten_path Sample.strict_download_env "file/other" = "file/other".
Proof.
  destruct (download_rewrite_bucket_mode Sample.strict_download_env
              "" "other" "video.mp4") as (H1 & H2 & _).
  - vm_compute. discriminate.
  - reflexivity.
  - split; [apply H1; discriminate|apply H2].
Defined.

(** ** HeaderFilter and ResponseShaper: composition *)

(** X11. Filtering is idempotent: filtering the filtered headers again,
    with the same configuration, changes nothing. *)
Theorem filterHeaders_idempotent h env :
  Headers_wf h →
  filterHeaders (filterHeaders h env) env = filterHeaders h env.
Proof.
  intros Hwf. apply map_eq. intros name.
  rewrite filterHeaders_lookup by apply new_Headers_wf.
  rewrite filterHeaders_lookup by done.
  by destruct (kept env (name, "")).
Qed.

Lemma filterHeaders_idempotent_witness :
  filterHeaders (filterHeaders (new_Headers Sample.wire_headers)
                               Sample.strict_env) Sample.strict_env
  = filterHeaders (new_Headers Sample.wire_headers) Sample.strict_env.
Proof.
  apply (filterHeaders_idempotent (new_Headers Sample.wire_headers)
           Sample.strict_env).
  apply new_Headers_wf.
Defined.

(** X12. The two steps of the shaper commute: removing the body and then
    adding the cache header gives the same response as adding the cache
    header and then removing the body. *)
Theorem shaper_steps_commute response ttl :
  Headers_wf (headers response) →
  addCacheHeaders (createHeadResponse response) ttl
  = createHeadResponse (addCacheHeaders response ttl).
Proof.
  intros Hwf. destruct (ok response) eqn:Hok.
  - rewrite (createHeadResponse_wf response) by done.
    rewrite addCacheHeaders_ok by done.
    rewrite (addCacheHeaders_ok response) by done.
    rewrite createHeadResponse_wf; [done|].
    by apply (Headers_set_wf _ "cache-control").
  - rewrite (addCacheHeaders_not_ok response) by done.
    by rewrite addCacheHeaders_not_ok.
Qed.

Lemma shaper_steps_commute_witness :
  addCacheHeaders (createHeadResponse Sample.whole) BROWSER_CACHE_TTL_SECONDS
  = createHeadResponse (addCacheHeaders Sample.whole BROWSER_CACHE_TTL_SECONDS).
Proof.
  apply (shaper_steps_commute Sample.whole BROWSER_CACHE_TTL_SECONDS).
  apply new_Headers_wf.
Defined.

(** X13. Adding cache headers twice keeps only the second lifetime, so
    with one lifetime the step is idempotent; removing the body twice is
    the same as removing it once. *)
Theorem shaper_steps_repeat response ttl1 ttl2 :
  Headers_wf (headers response) →
  addCacheHeaders (addCacheHeaders response ttl1) ttl2
  = addCacheHeaders response ttl2
  ∧ createHeadResponse (createHeadResponse response)
    = createHeadResponse response.
Proof.
  intros Hwf. split.
  - destruct (ok response) eqn:Hok.
    + rewrite (addCacheHeaders_ok response ttl1) by done.
      rewrite addCacheHeaders_ok;
        [|done|by apply (Headers_set_wf _ "cache-control")].
      rewrite (addCacheHeaders_ok response ttl2) by done. simpl.
      by rewrite insert_insert_eq.
    + by rewrite (addCacheHeaders_not_ok response ttl1).
  - rewrite (createHeadResponse_wf response) by done.
    by rewrite createHeadResponse_wf.
Qed.

Lemma shaper_steps_repeat_witness :
  addCacheHeaders (addCacheHeaders Sample.whole 60) BROWSER_CACHE_TTL_SECONDS
  = addCacheHeaders Sample.whole BROWSER_CACHE_TTL_SECONDS
  ∧ createHeadResponse (createHeadResponse Sample.whole)
    = createHeadResponse Sample.whole.
Proof.
  apply (shaper_steps_repeat Sample.whole 60 BROWSER_CACHE_TTL_SECONDS).
  apply new_Headers_wf.
Defined.

(** ** RangeRetryController: the whole trace *)

Lemma retry_events_quiet s remaining rs :
  count is_exhaustion (retry_events s remaining rs) = 0%nat
  ∧ count is_sign (retry_events s remaining rs) = 0%nat
  ∧ count is_fetch (retry_events s remaining rs) = length rs.
Proof.
  revert remaining. induction rs as [|r rs IH]; intros remaining; [done|].
  destruct (IH (pred remaining)) as (He & Hs & Hf).
  unfold count in *. simpl. destruct (body r); simpl; by rewrite He, Hs, Hf.
Qed.

(** Every sequence of answers stops the loop in one of three ways. *)
Lemma upstream_cases (answers : nat → option Response) :
  (∃ rs r, (length rs < 3)%nat ∧ ignores answers rs
           ∧ answers (length rs) = Some r
           ∧ (Headers_has (headers r) "content-range" = true ∨ ok r = false))
  ∨ (∃ rs, (length rs < 3)%nat ∧ ignores answers rs
           ∧ answers (length rs) = None)
  ∨ (∃ r1 r2 r3, ignores answers [r1; r2; r3]).
Proof.
  assert (∀ r, range_ignored r
               ∨ (Headers_has (headers r) "content-range" = true ∨ ok r = false))
    as Hdec.
  { intros r. unfold range_ignored.
    destruct (Headers_has (headers r) "content-range"), (ok r); auto. }
  assert (ignores answers []) as H0 by (by intros i r).
  destruct (answers 0%nat) as [r1|] eqn:E1;
    [|right; left; exists []; split_and!; [simpl; lia|done|done]].
  destruct (Hdec r1) as [I1|S1];
    [|left; exists [], r1; split_and!; [simpl; lia|done..]].
  assert (ignores answers [r1]) as H1.
  { intros [|i] r; [|done]. by intros [= <-]. }
  destruct (answers 1%nat) as [r2|] eqn:E2;
    [|right; left; exists [r1]; split_and!; [simpl; lia|done|done]].
  destruct (Hdec r2) as [I2|S2];
    [|left; exists [r1], r2; split_and!; [simpl; lia|done..]].
  assert (ignores answers [r1; r2]) as H2.
  { intros [|[|i]] r; [| |done]; by intros [= <-]. }
  destruct (answers 2%nat) as [r3|] eqn:E3;
    [|right; left; exists [r1; r2]; split_and!; [simpl; lia|done|done]].
  destruct (Hdec r3) as [I3|S3];
    [|left; exists [r1; r2], r3; split_and!; [simpl; lia|done..]].
  right; right. exists r1, r2, r3.
  intros [|[|[|i]]] r; [| | |done]; by intros [= <-].
Qed.

(** Equality of two outcomes that differ in how the trace is bracketed
    and in how the fetch counter is written. *)
Ltac world_equal :=
  unfold fetched; cbn [fetches trace]; rewrite <-?app_assoc;
  repeat f_equal; solve [done | lia].

Section LoopTrace.

Variable upstream : nat → option Response.
Variable signedRequest : SignedRequest.

#[local] Abbreviation loop := (range_loop upstream signedRequest).
#[local] Abbreviation url := (signed_url signedRequest).

(** The answers as the loop sees them when it starts in world [w]. *)
#[local] Abbreviation from w := (λ i, upstream (fetches w + i)%nat).

Lemma range_loop_retries rs : ∀ n w,
  ignores (from w) rs →
  loop (S n + length rs) w
  = loop (S n)
         (mkWorld (fetches w + length rs)
                  (trace w ++ retry_events signedRequest (n + length rs) rs)).
Proof.
  induction rs as [|r rs IH]; intros n w Hign.
  - destruct w as [f t]. simpl. by rewrite !Nat.add_0_r, app_nil_r.
  - destruct (Hign 0%nat r eq_refl) as [Hup Hr]. rewrite Nat.add_0_r in Hup.
    simpl length. replace (S n + S (length rs))%nat
      with (S (S (n + length rs))) by lia.
    rewrite (range_loop_retry _ _ _ _ _ Hup Hr).
    etrans; [apply (IH n)|].
    + intros i ri Hi. destruct (Hign (S i) ri Hi) as [Hu ?]. split; [|done].
      simpl. by rewrite <-Nat.add_succ_r.
    + unfold fetched. simpl. do 2 f_equal; [lia|].
      replace (n + S (length rs))%nat with (S (n + length rs)) by lia.
      simpl. by rewrite <-app_assoc.
Qed.

Lemma range_loop_settled_trace w rs r :
  (length rs < 3)%nat →
  ignores (from w) rs →
  upstream (fetches w + length rs) = Some r →
  Headers_has (headers r) "content-range" = true ∨ ok r = false →
  loop RANGE_RETRY_ATTEMPTS w
  = (Fulfilled (mkLoopVars (3 - Z.of_nat (length rs)) r (Some r)),
     mkWorld (fetches w + S (length rs))
       (trace w ++ retry_events signedRequest 2 rs
        ++ fetch_event signedRequest
           :: if Headers_has (headers r) "content-range"
                 && (0 <? length rs)%nat
              then [EvConsoleLog (RetrySucceeded url)] else [])).
Proof.
  intros Hlen Hign Hup Hstop.
  replace RANGE_RETRY_ATTEMPTS with (S (2 - length rs) + length rs)%nat
    by (unfold RANGE_RETRY_ATTEMPTS; lia).
  rewrite range_loop_retries by done.
  replace (2 - length rs + length rs)%nat with 2%nat by lia.
  replace (3 - Z.of_nat (length rs)) with (Z.of_nat (S (2 - length rs))) by lia.
  destruct (Headers_has (headers r) "content-range") eqn:Hcr.
  - erewrite range_loop_content_range; [|done..].
    assert ((S (2 - length rs) <? RANGE_RETRY_ATTEMPTS)%nat
            = (0 <? length rs)%nat) as ->.
    { unfold RANGE_RETRY_ATTEMPTS.
      destruct (length rs) as [|[|[|?]]]; simpl; done || lia. }
    world_equal.
  - destruct Hstop as [|Hok]; [done|].
    erewrite range_loop_not_ok; [|done..].
    world_equal.
Qed.

Lemma range_loop_rejected_trace w rs :
  (length rs < 3)%nat →
  ignores (from w) rs →
  upstream (fetches w + length rs) = None →
  loop RANGE_RETRY_ATTEMPTS w
  = (Rejected,
     mkWorld (fetches w + S (length rs))
       (trace w ++ retry_events signedRequest 2 rs
        ++ [fetch_event signedRequest])).
Proof.
  intros Hlen Hign Hup.
  replace RANGE_RETRY_ATTEMPTS with (S (2 - length rs) + length rs)%nat
    by (unfold RANGE_RETRY_ATTEMPTS; lia).
  rewrite range_loop_retries by done.
  replace (2 - length rs + length rs)%nat with 2%nat by lia.
  rewrite range_loop_rejected by done.
  world_equal.
Qed.

Lemma range_loop_exhausted_trace w r1 r2 r3 :
  ignores (from w) [r1; r2; r3] →
  loop RANGE_RETRY_ATTEMPTS w
  = (Fulfilled (mkLoopVars 0 r3 (Some r3)),
     mkWorld (fetches w + 3)
       (trace w ++ retry_events signedRequest 2 [r1; r2]
        ++ [fetch_event signedRequest;
            EvConsoleError (NoContentRange url 0)])).
Proof.
  intros Hign.
  destruct (Hign 2%nat r3 eq_refl) as [Hup Hr].
  change RANGE_RETRY_ATTEMPTS with (1 + length [r1; r2])%nat.
  rewrite range_loop_retries.
  - rewrite (range_loop_last upstream signedRequest 1 _ r3); [|done..].
    world_equal.
  - intros i r Hi. apply Hign.
    destruct i as [|[|i]]; by simplify_eq/=.
Qed.

(** X20. The loop always leaves with its final response set to the last
    response fetched, so the safeguard after the loop never has to act;
    it leaves with between 0 and 3 tries, and with 0 only when the last
    response is a success without [content-range]. *)
Theorem range_loop_leaves_final_response w vars w' :
  loop RANGE_RETRY_ATTEMPTS w = (Fulfilled vars, w') →
  finalResponse vars = Some (response vars)
  ∧ (0 ≤ attempts vars ≤ 3)%Z
  ∧ (attempts vars = 0 → range_ignored (response vars)).
Proof.
  destruct (upstream_cases (from w))
    as [(rs & r & Hlen & Hign & Hup & Hstop)|[(rs & Hlen & Hign & Hup)|
        (r1 & r2 & r3 & Hign)]].
  - rewrite (range_loop_settled_trace w rs r) by done.
    intros [= <- _]. simpl. split_and!; [done|lia|lia|lia].
  - by rewrite (range_loop_rejected_trace w rs).
  - rewrite (range_loop_exhausted_trace w r1 r2 r3) by done.
    intros [= <- _]. simpl. split_and!; [done|lia|lia|].
    intros _. by destruct (Hign 2%nat r3 eq_refl).
Qed.

End LoopTrace.

Lemma range_loop_leaves_final_response_witness :
  finalResponse (mkLoopVars 2 Sample.partial (Some Sample.partial))
  = Some Sample.partial
  ∧ (0 ≤ 2 ≤ 3)%Z
  ∧ (2 = 0 → range_ignored Sample.partial).
Proof.
  apply (range_loop_leaves_final_response
           (Sample.replies [Sample.whole; Sample.partial])
           (signed_request Sample.sign Sample.get_range Sample.env)
           initial
           (mkLoopVars 2 Sample.partial (Some Sample.partial))
           (range_loop (Sample.replies [Sample.whole; Sample.partial])
              (signed_request Sample.sign Sample.get_range Sample.env)
              RANGE_RETRY_ATTEMPTS initial).2).
  vm_compute. reflexivity.
Defined.

Section HandlerTrace.

Variable aws_sign :
  string → string → string → string → string → Headers → SignedRequest.
Variable upstream : nat → option Response.

#[local] Abbreviation signed := (signed_request aws_sign).

(** The three ways the range branch can end, from the world in which the
    request has just been signed. *)
Lemma dispatch_range_settled s m e rs r :
  Headers_has (signed_headers s) "range" = true →
  (length rs < 3)%nat →
  ignores upstream rs →
  upstream (length rs) = Some r →
  Headers_has (headers r) "content-range" = true ∨ ok r = false →
  dispatch upstream s m (World_emit initial e)
  = (Fulfilled (respond m r),
     mkWorld (S (length rs))
       (e :: retry_events s 2 rs
        ++ fetch_event s
           :: if Headers_has (headers r) "content-range"
                 && (0 <? length rs)%nat
              then [EvConsoleLog (RetrySucceeded (signed_url s))] else [])).
Proof.
  intros Hr Hlen Hign Hup Hstop. unfold dispatch. rewrite Hr.
  unfold mbind, Async_bind.
  rewrite (range_loop_settled_trace upstream s _ rs r); [|done..].
  cbn [attempts response finalResponse default from_option].
  assert ((3 - Z.of_nat (length rs) <=? 0)%Z = false) as ->
    by (apply Z.leb_gt; lia).
  reflexivity.
Qed.

Lemma dispatch_range_rejected s m e rs :
  Headers_has (signed_headers s) "range" = true →
  (length rs < 3)%nat →
  ignores upstream rs →
  upstream (length rs) = None →
  dispatch upstream s m (World_emit initial e)
  = (Rejected,
     mkWorld (S (length rs)) (e :: retry_events s 2 rs ++ [fetch_event s])).
Proof.
  intros Hr Hlen Hign Hup. unfold dispatch. rewrite Hr.
  unfold mbind, Async_bind.
  by rewrite (range_loop_rejected_trace upstream s _ rs).
Qed.

Lemma dispatch_range_exhausted s m e r1 r2 r3 :
  Headers_has (signed_headers s) "range" = true →
  ignores upstream [r1; r2; r3] →
  dispatch upstream s m (World_emit initial e)
  = (Fulfilled (respond m r3),
     mkWorld 3
       (e :: retry_events s 2 [r1; r2]
        ++ [fetch_event s;
            EvConsoleError (NoContentRange (signed_url s) 0);
            EvConsoleError (RetriesExhausted (signed_url s)
                                             RANGE_RETRY_ATTEMPTS)])).
Proof.
  intros Hr Hign. unfold dispatch. rewrite Hr. unfold mbind, Async_bind.
  rewrite (range_loop_exhausted_trace upstream s _ r1 r2 r3) by done.
  destruct (Hign 2%nat r3 eq_refl) as [_ [_ Hcr]].
  cbn [attempts response finalResponse default from_option id]. rewrite Hcr.
  unfold console_error, World_emit, mbind, Async_bind, mret, Async_ret, initial.
  cbn [fetches trace Z.leb Z.compare andb negb app Nat.add].
  rewrite <-app_assoc. reflexivity.
Qed.

(** X14. Without a [range] header in the signed request there is no retry
    logic at all: whatever the one response is, even a success without
    [content-range], the trace is the signing call and one fetch, and
    nothing is written to the console. *)
Theorem plain_request_single_fetch request env r :
  forwarded request env = true →
  Headers_has (signed_headers (signed request env)) "range" = false →
  upstream 0%nat = Some r →
  fetch aws_sign upstream request env initial
  = (Fulfilled (respond (req_method request) r),
     mkWorld 1 [sign_event request env; fetch_event (signed request env)]).
Proof.
  intros Hfwd Hr Hup. rewrite fetch_forwarded by done.
  rewrite dispatch_plain by done. simpl. by rewrite Hup.
Qed.

(** X15. On the range path, when the first [k < 3] responses are successes
    without [content-range] and the next one carries [content-range] or
    is not a success, the trace is: the signing call; for each ignored
    response the fetch, the console error announcing 2 and then 1 tries
    left, and the release of its body if it has one; the last fetch; and
    the note that the retry succeeded, only when the response carries
    [content-range] and was not the first. The body of the returned
    response is not released, and there is no exhaustion diagnostic. *)
Theorem retried_range_trace request env rs r :
  forwarded request env = true →
  Headers_has (signed_headers (signed request env)) "range" = true →
  (length rs < 3)%nat →
  ignores upstream rs →
  upstream (length rs) = Some r →
  Headers_has (headers r) "content-range" = true ∨ ok r = false →
  fetch aws_sign upstream request env initial
  = (Fulfilled (respond (req_method request) r),
     mkWorld (S (length rs))
       (sign_event request env
        :: retry_events (signed request env) 2 rs
        ++ fetch_event (signed request env)
           :: if Headers_has (headers r) "content-range"
                 && (0 <? length rs)%nat
              then [EvConsoleLog
                      (RetrySucceeded (signed_url (signed request env)))]
              else [])).
Proof.
  intros Hfwd Hr Hlen Hign Hup Hstop. rewrite fetch_forwarded by done.
  by apply dispatch_range_settled.
Qed.

(** X16. On the range path, three successes without [content-range] leave
    this trace: the signing call; two rounds of fetch, console error (2,
    then 1 tries left) and release of the body; the third fetch with the
    console error for 0 tries left, whose body is kept for the client;
    and the exhaustion diagnostic, last. *)
Theorem exhausted_range_trace request env r1 r2 r3 :
  forwarded request env = true →
  Headers_has (signed_headers (signed request env)) "range" = true →
  ignores upstream [r1; r2; r3] →
  fetch aws_sign upstream request env initial
  = (Fulfilled (respond (req_method request) r3),
     mkWorld 3
       (sign_event request env
        :: retry_events (signed request env) 2 [r1; r2]
        ++ [fetch_event (signed request env);
            EvConsoleError
              (NoContentRange (signed_url (signed request env)) 0);
            EvConsoleError
              (RetriesExhausted (signed_url (signed request env)) 3)])).
Proof.
  intros Hfwd Hr Hign. rewrite fetch_forwarded by done.
  by apply dispatch_range_exhausted.
Qed.

(** X18. A transport failure is not swallowed: when the fetch that fails
    is the first one, or on the range path comes after [k < 3] ignored
    ranges, the handler rejects, having fetched [k + 1] times; no
    response is made up and nothing more is written to the console. *)
Theorem transport_failure_rejects request env rs :
  forwarded request env = true →
  Headers_has (signed_headers (signed request env)) "range" = true
  ∨ rs = [] →
  (length rs < 3)%nat →
  ignores upstream rs →
  upstream (length rs) = None →
  fetch aws_sign upstream request env initial
  = (Rejected,
     mkWorld (S (length rs))
       (sign_event request env
        :: retry_events (signed request env) 2 rs
        ++ [fetch_event (signed request env)])).
Proof.
  intros Hfwd Hcase Hlen Hign Hup. rewrite fetch_forwarded by done.
  destruct (Headers_has (signed_headers (signed request env)) "range") eqn:Hr.
  - by apply dispatch_range_rejected.
  - destruct Hcase as [? | ->]; [done|].
    rewrite dispatch_plain by done. simpl in *. by rewrite Hup.
Qed.

(** X17. The exhaustion diagnostic is written at most once, and exactly
    when the signed request carries [range] and the first three
    responses are all successes without [content-range]. *)
Theorem exhaustion_diagnostic_iff request env :
  forwarded request env = true →
  let w' := (fetch aws_sign upstream request env initial).2 in
  (count is_exhaustion (trace w') ≤ 1)%nat
  ∧ (count is_exhaustion (trace w') = 1%nat
     ↔ Headers_has (signed_headers (signed request env)) "range" = true
       ∧ ∃ r1 r2 r3, ignores upstream [r1; r2; r3]).
Proof.
  intros Hfwd w'. subst w'. rewrite fetch_forwarded by done.
  assert (∀ rs, (length rs < 3)%nat → ignores upstream rs →
            (∀ r, upstream (length rs) = Some r → ¬ range_ignored r) →
            ¬ ∃ r1 r2 r3, ignores upstream [r1; r2; r3]) as Hstop.
  { intros rs Hlen Hign Hno (r1 & r2 & r3 & H3).
    assert (∃ r, [r1; r2; r3] !! length rs = Some r) as [r Hr].
    { apply lookup_lt_is_Some. simpl. lia. }
    destruct (H3 _ _ Hr) as [Hu Hi]. by apply (Hno r). }
  assert (∀ s rs, count is_exhaustion (retry_events s 2 rs) = 0%nat) as Hq
    by (intros; apply retry_events_quiet).
  destruct (Headers_has (signed_headers (signed request env)) "range") eqn:Hr.
  - destruct (upstream_cases upstream)
      as [(rs & r & Hlen & Hign & Hup & Hs)|[(rs & Hlen & Hign & Hup)|
          (r1 & r2 & r3 & Hign)]].
    + rewrite (dispatch_range_settled _ _ _ rs r) by done. cbn [snd trace].
      assert (count is_exhaustion
                (sign_event request env
                 :: retry_events (signed request env) 2 rs
                 ++ fetch_event (signed request env)
                    :: (if Headers_has (headers r) "content-range"
                           && (0 <? length rs)%nat
                        then [EvConsoleLog
                                (RetrySucceeded
                                   (signed_url (signed request env)))]
                        else [])) = 0%nat) as ->.
      { change (sign_event request env :: ?l)
          with ([sign_event request env] ++ l)%list.
        rewrite !count_app, Hq. by destruct (_ && _). }
      split; [lia|]. split; [done|]. intros [_ H3]. exfalso.
      apply (Hstop rs Hlen Hign); [|done].
      intros r' Hr' [Hok Hcr]. rewrite Hup in Hr'. simplify_eq.
      destruct Hs; congruence.
    + rewrite (dispatch_range_rejected _ _ _ rs) by done. cbn [snd trace].
      assert (count is_exhaustion
                (sign_event request env
                 :: retry_events (signed request env) 2 rs
                 ++ [fetch_event (signed request env)]) = 0%nat) as ->.
      { change (sign_event request env :: ?l)
          with ([sign_event request env] ++ l)%list.
        by rewrite !count_app, Hq. }
      split; [lia|]. split; [done|]. intros [_ H3]. exfalso.
      apply (Hstop rs Hlen Hign); [|done].
      intros r' Hr'. congruence.
    + rewrite (dispatch_range_exhausted _ _ _ r1 r2 r3) by done.
      cbn [snd trace].
      assert (count is_exhaustion
                (sign_event request env
                 :: retry_events (signed request env) 2 [r1; r2]
                 ++ [fetch_event (signed request env);
                     EvConsoleError
                       (NoContentRange (signed_url (signed request env)) 0);
                     EvConsoleError
                       (RetriesExhausted (signed_url (signed request env))
                                         RANGE_RETRY_ATTEMPTS)]) = 1%nat) as ->.
      { change (sign_event request env :: ?l)
          with ([sign_event request env] ++ l)%list.
        by rewrite !count_app, Hq. }
      split; [lia|]. split; [|done]. intros _. split; [done|]. eauto.
  - rewrite dispatch_plain by done. cbn [snd trace]. unfold count. simpl.
    split; [lia|]. split; [done|]. by intros [? _].
Qed.

(** X19. Whatever the request and the upstream: a method other than GET
    and HEAD gets the 405 of the worker and a refused list-bucket request
    its 404, both without fetch; every other request is fetched one to
    three times and is then rejected when the last fetch failed; and when
    the last response fetched is one a [Response] can be built from
    (status within 200..599, no body with 204 or 205), it is answered
    with the status and status text of that response, with its body for
    GET and without body for HEAD. *)
Theorem handler_outcome request env :
  let result := fetch aws_sign upstream request env initial in
  (Js.includes ["GET"; "HEAD"] (req_method request) = false →
     result = (Fulfilled {| body := None; status := 405;
                            statusText := "Method Not Allowed";
                            headers := ∅ |}, initial))
  ∧ (Js.includes ["GET"; "HEAD"] (req_method request) = true →
     forwarded request env = false →
     result = (Fulfilled {| body := None; status := 404;
                            statusText := "Not Found"; headers := ∅ |},
               initial))
  ∧ (forwarded request env = true →
     ∃ k, (k < 3)%nat ∧ fetches result.2 = S k
          ∧ match upstream k with
            | Some r =>
                constructible r →
                ∃ out, result.1 = Fulfilled out
                       ∧ status out = status r
                       ∧ statusText out = statusText r
                       ∧ body out = (if String.eqb (req_method request) "HEAD"
                                     then None else body r)
            | None => result.1 = Rejected
            end).
Proof.
  intros result. subst result. split_and!.
  - intros Hm. by apply fetch_method_rejected.
  - intros Hm Hf. unfold forwarded in Hf. rewrite Hm in Hf. simpl in Hf.
    apply negb_false_iff, andb_true_iff in Hf as [Hl Ha].
    apply fetch_listing_rejected; [done..|]. by apply negb_true_iff in Ha.
  - intros Hfwd.
    destruct (forwarded_trace aws_sign upstream request env Hfwd)
      as (evs & k & -> & _ & _ & Hle & ->).
    exists k. split; [lia|]. split; [done|].
    destruct (upstream k) as [r|]; [|done].
    intros _. eexists. split; [done|]. unfold respond.
    destruct (String.eqb (req_method request) "HEAD");
      unfold addCacheHeaders;
      change (ok (createHeadResponse r)) with (ok r);
      by destruct (ok r).
Qed.

End HandlerTrace.

(** Shows [ignores upstream rs] for sample responses, position by
    position. *)
Ltac sample_ignores :=
  let i := fresh "i" in
  let r := fresh "r" in
  let Hi := fresh "Hi" in
  intros i r Hi;
  repeat (destruct i as [|i];
          [injection Hi as <-; split; [reflexivity|by vm_compute]|]);
  discriminate Hi.

Lemma plain_request_single_fetch_witness :
  let s := signed_request Sample.sign Sample.head_plain Sample.env in
  fetch Sample.sign (Sample.replies [Sample.whole]) Sample.head_plain
        Sample.env initial
  = (Fulfilled (respond "HEAD" Sample.whole),
     mkWorld 1 [sign_event Sample.head_plain Sample.env; fetch_event s]).
Proof.
  apply (plain_request_single_fetch Sample.sign (Sample.replies [Sample.whole])
           Sample.head_plain Sample.env Sample.whole).
  - reflexivity.
  - by vm_compute.
  - reflexivity.
Defined.

Lemma retried_range_trace_witness :
  let s := signed_request Sample.sign Sample.get_range Sample.env in
  fetch Sample.sign (Sample.replies [Sample.whole; Sample.partial])
        Sample.get_range Sample.env initial
  = (Fulfilled (respond "GET" Sample.partial),
     mkWorld 2
       [sign_event Sample.get_range Sample.env;
        fetch_event s;
        EvConsoleError (NoContentRange (signed_url s) 2);
        EvBodyCancel Sample.whole;
        fetch_event s;
        EvConsoleLog (RetrySucceeded (signed_url s))]).
Proof.
  apply (retried_range_trace Sample.sign
           (Sample.replies [Sample.whole; Sample.partial])
           Sample.get_range Sample.env [Sample.whole] Sample.partial).
  - reflexivity.
  - by vm_compute.
  - simpl. lia.
  - sample_ignores.
  - reflexivity.
  - left. by vm_compute.
Defined.

Lemma exhausted_range_trace_witness :
  let s := signed_request Sample.sign Sample.get_range Sample.env in
  fetch Sample.sign
        (Sample.replies [Sample.whole; Sample.empty_ok; Sample.whole])
        Sample.get_range Sample.env initial
  = (Fulfilled (respond "GET" Sample.whole),
     mkWorld 3
       [sign_event Sample.get_range Sample.env;
        fetch_event s;
        EvConsoleError (NoContentRange (signed_url s) 2);
        EvBodyCancel Sample.whole;
        fetch_event s;
        EvConsoleError (NoContentRange (signed_url s) 1);
        fetch_event s;
        EvConsoleError (NoContentRange (signed_url s) 0);
        EvConsoleError (RetriesExhausted (signed_url s) 3)]).
Proof.
  apply (exhausted_range_trace Sample.sign
           (Sample.replies [Sample.whole; Sample.empty_ok; Sample.whole])
           Sample.get_range Sample.env
           Sample.whole Sample.empty_ok Sample.whole).
  - reflexivity.
  - by vm_compute.
  - sample_ignores.
Defined.

Lemma transport_failure_rejects_witness :
  let s := signed_request Sample.sign Sample.get_range Sample.env in
  fetch Sample.sign (Sample.replies [Sample.whole]) Sample.get_range
        Sample.env initial
  = (Rejected,
     mkWorld 2
       [sign_event Sample.get_range Sample.env;
        fetch_event s;
        EvConsoleError (NoContentRange (signed_url s) 2);
        EvBodyCancel Sample.whole;
        fetch_event s]).
Proof.
  apply (transport_failure_rejects Sample.sign (Sample.replies [Sample.whole])
           Sample.get_range Sample.env [Sample.whole]).
  - reflexivity.
  - left. by vm_compute.
  - simpl. lia.
  - sample_ignores.
  - reflexivity.
Defined.

Lemma exhaustion_diagnostic_iff_witness :
  let w' := (fetch Sample.sign (Sample.replies [Sample.whole; Sample.partial])
                   Sample.get_range Sample.env initial).2 in
  (count is_exhaustion (trace w') ≤ 1)%nat
  ∧ (count is_exhaustion (trace w') = 1%nat
     ↔ Headers_has (signed_headers
                      (signed_request Sample.sign Sample.get_range Sample.env))
                   "range" = true
       ∧ ∃ r1 r2 r3,
           ignores (Sample.replies [Sample.whole; Sample.partial]) [r1; r2; r3]).
Proof.
  apply (exhaustion_diagnostic_iff Sample.sign
           (Sample.replies [Sample.whole; Sample.partial])
           Sample.get_range Sample.env).
  reflexivity.
Defined.

Lemma handler_outcome_witness :
  ∃ out,
    (fetch Sample.sign (Sample.replies [Sample.denied])
           Sample.head_plain Sample.env initial).1 = Fulfilled out
    ∧ status out = 403
    ∧ statusText out = "Forbidden"
    ∧ body out = None.
Proof.
  destruct (handler_outcome Sample.sign (Sample.replies [Sample.denied])
              Sample.head_plain Sample.env) as (_ & _ & Hfwd).
  destruct (Hfwd eq_refl) as (k & Hk & Hfetches & Hout).
  assert (k = 0%nat) as -> by (vm_compute in Hfetches; congruence).
  apply Hout. split; [vm_compute; split; discriminate|].
  intros [H|H]; vm_compute in H; discriminate.
Defined.
